(** * Manufacturing Process Simulator: the computation of [main]

    A shallow embedding of [Simulation_Case.py].  The script is one function,
    [main], that reads its inputs from Streamlit widgets, draws a batch of
    parts, and derives a defect rate, the capability indices, the financial
    figures, the data of the density plot and an improvement scenario.

    Modelling choices.
    - A Python [float] (and a NumPy [float64]) is a real number: rounding and
      overflow of binary64 are not modelled.  The two places where the script
      can leave the finite numbers keep an explicit marker ([xfloat]): the
      NumPy division of line 29 and the literal [float('inf')] of line 137.
    - A Python [int] and a NumPy [int64] are integers ([Z]).
    - The division of two Python floats raises [ZeroDivisionError] on a zero
      divisor; a NumPy division never raises.  Exceptions are the left
      summand of the error monad [sum exn].
    - The ambient generator behind [np.random.normal] is a stream of standard
      normal variates, an argument of [main].
    - Widgets are inputs: the record [Inputs] holds the values they return and
      [widget_bounds] the ranges their declarations enforce.  Rendering
      ([st.write], [ax.plot], ...) is not modelled. *)

From Stdlib Require Import String.
From Stdlib Require Import Reals Lra Lia ZArith List Bool Permutation Sorted.
From ExtLib Require Import Structures.Monad Data.Monads.EitherMonad.
Import ListNotations.
Import MonadNotation.

Local Open Scope R_scope.
Local Open Scope monad_scope.

(** ** Python *)

Module Py.

Inductive exn : Type :=
| ZeroDivisionError
| ValueError.

Definition result : Type -> Type := sum exn.

Definition raise {A : Type} (e : exn) : result A := inl e.

(** [x / y] on two Python floats. *)
Definition truediv (x y : R) : result R :=
  if Req_dec_T y 0 then raise ZeroDivisionError else ret (x / y).

(** [min(a, b)]: the first argument is kept unless the second is strictly
    smaller. *)
Definition min (a b : R) : R :=
  if Rlt_dec b a then b else a.

(** [a > 0] on a Python int. *)
Definition gt0 (a : Z) : bool := (0 <? a)%Z.

End Py.

(** A float that may have left the finite numbers. *)
Inductive xfloat : Type :=
| Finite (r : R)
| PosInf
| NegInf
| NaN.

(** ** NumPy *)

Module Np.

Definition ltb (a b : R) : bool := if Rlt_dec a b then true else false.
Definition gtb (a b : R) : bool := if Rgt_dec a b then true else false.
Definition leb (a b : R) : bool := if Rle_dec a b then true else false.
Definition geb (a b : R) : bool := if Rge_dec a b then true else false.

(** [arr < c], [arr > c], [arr <= c], [arr >= c]: element-wise masks. *)
Definition lt (arr : list R) (c : R) : list bool := map (fun v => ltb v c) arr.
Definition gt (arr : list R) (c : R) : list bool := map (fun v => gtb v c) arr.
Definition le (arr : list R) (c : R) : list bool := map (fun v => leb v c) arr.
Definition ge (arr : list R) (c : R) : list bool := map (fun v => geb v c) arr.

(** [m1 | m2] and [m1 & m2] on masks of one shape. *)
Fixpoint zip_with {A B C : Type} (f : A -> B -> C) (l1 : list A) (l2 : list B)
  : list C :=
  match l1, l2 with
  | a :: l1', b :: l2' => f a b :: zip_with f l1' l2'
  | _, _ => []
  end.

Definition or_ (m1 m2 : list bool) : list bool := zip_with orb m1 m2.
Definition and_ (m1 m2 : list bool) : list bool := zip_with andb m1 m2.

(** [np.sum] of a mask: the number of [True] entries, an [int64]. *)
Fixpoint sum (m : list bool) : Z :=
  match m with
  | [] => 0%Z
  | b :: m' => ((if b then 1 else 0) + sum m')%Z
  end.

(** [arr[mask]]: the entries of [arr] at which [mask] is [True]. *)
Fixpoint take {A : Type} (arr : list A) (mask : list bool) : list A :=
  match arr, mask with
  | a :: arr', b :: mask' => if b then a :: take arr' mask' else take arr' mask'
  | _, _ => []
  end.

(** [a / b] on an [int64] and an [int]: [float64] division, which warns
    and returns a non-finite value on a zero divisor. *)
Definition true_divide (a b : Z) : xfloat :=
  if (b =? 0)%Z then
    if (a =? 0)%Z then NaN else if (0 <? a)%Z then PosInf else NegInf
  else Finite (IZR a / IZR b).

(** [v * c] for a positive finite constant [c]. *)
Definition times (v : xfloat) (c : R) : xfloat :=
  match v with
  | Finite r => Finite (r * c)
  | PosInf => PosInf
  | NegInf => NegInf
  | NaN => NaN
  end.

(** [np.linspace(start, stop, num)]: [num] evenly spaced points, the
    i-th being [start + i * (stop - start) / (num - 1)]. *)
Definition linspace (start stop : R) (num : nat) : list R :=
  let step := (stop - start) / INR (num - 1) in
  map (fun i => INR i * step + start) (seq 0 num).

(** [np.random.normal(loc, scale, size)]: rejects a negative scale and a
    negative size, otherwise returns [size] variates [loc + scale * g],
    [g] being the next standard normal variate of the generator. *)
Definition random_normal (gauss : nat -> R) (loc scale : R) (size : Z)
  : Py.result (list R) :=
  if Rlt_dec scale 0 then Py.raise Py.ValueError
  else if (size <? 0)%Z then Py.raise Py.ValueError
  else ret (map (fun k => loc + scale * gauss k) (seq 0 (Z.to_nat size))).

End Np.

(** ** SciPy: the normal distribution *)

Module Norm.

(** Density of the standard normal distribution. *)
Definition std_pdf (t : R) : R := exp (- (t * t) / 2) / sqrt (2 * PI).

(** The density is continuous, hence integrable on every segment. *)
Definition std_pdf_integrable (a b : R) : Riemann_integrable std_pdf a b.
Proof.
  assert (Hc : continuity std_pdf)
    by (apply derivable_continuous; unfold std_pdf; reg).
  destruct (Rle_dec a b) as [Hab | Hab].
  - apply continuity_implies_RiemannInt; [exact Hab |].
    intros t _. apply Hc.
  - apply RiemannInt_P1, continuity_implies_RiemannInt; [lra |].
    intros t _. apply Hc.
Defined.

(** Mass of the standard normal distribution between [a] and [b]. *)
Definition mass (a b : R) : R := RiemannInt (std_pdf_integrable a b).

(** [stats.norm.cdf(z)]: the standard normal distribution function, one
    half at the origin plus the mass between the origin and [z]. *)
Definition cdf (z : R) : R := 1 / 2 + mass 0 z.

(** [stats.norm.pdf(v, loc, scale)]. *)
Definition pdf (v loc scale : R) : R := std_pdf ((v - loc) / scale) / scale.

End Norm.

(** ** The inputs of [main] *)

(** The values returned by the widgets of lines 12-22, 121, 122 and 135. *)
Record Inputs : Type := {
  target_dimension : R;
  process_mean : R;
  process_std : R;
  lower_spec : R;
  upper_spec : R;
  batch_size : Z;
  cost_per_unit : R;
  revenue_per_unit : R;
  improved_std : R;
  centered_mean : bool;
  improvement_cost : Z
}.

(** The ranges declared by the widgets ([min_value], [max_value]); the two
    specification limits are bounded independently of each other. *)
Definition widget_bounds (i : Inputs) : Prop :=
  10 <= target_dimension i <= 100 /\
  10 <= process_mean i <= 100 /\
  1 / 1000 <= process_std i <= 1 /\
  10 <= lower_spec i <= 100 /\
  10 <= upper_spec i <= 100 /\
  (100 <= batch_size i <= 10000)%Z /\
  1 / 10 <= cost_per_unit i <= 100 /\
  1 / 10 <= revenue_per_unit i <= 200 /\
  1 / 1000 <= improved_std i <= process_std i * 2 /\
  (0 <= improvement_cost i <= 100000)%Z.

(** ** The locals of [main], one definition per assignment *)

Section Main.

Variable i : Inputs.

(** Line 25, the batch drawn from the generator [gauss]. *)
Definition manufactured_parts (gauss : nat -> R) : Py.result (list R) :=
  Np.random_normal gauss (process_mean i) (process_std i) (batch_size i).

Section Batch.

Variable parts : list R.

(** Lines 28-29. *)
Definition defects : Z :=
  Np.sum (Np.or_ (Np.lt parts (lower_spec i)) (Np.gt parts (upper_spec i))).

Definition defect_rate : xfloat :=
  Np.times (Np.true_divide defects (batch_size i)) 100.

(** Lines 32-35. *)
Definition total_manufacturing_cost : R :=
  IZR (batch_size i) * cost_per_unit i.

Definition good_parts : Z := (batch_size i - defects)%Z.

Definition total_revenue : R := IZR good_parts * revenue_per_unit i.

Definition profit : R := total_revenue - total_manufacturing_cost.

End Batch.

(** Lines 38-41. *)
Definition cp : Py.result R :=
  Py.truediv (upper_spec i - lower_spec i) (6 * process_std i).

Definition cpu : Py.result R :=
  Py.truediv (upper_spec i - process_mean i) (3 * process_std i).

Definition cpl : Py.result R :=
  Py.truediv (process_mean i - lower_spec i) (3 * process_std i).

Definition cpk : Py.result R :=
  u <- cpu ;; l <- cpl ;; ret (Py.min u l).

(** Lines 47-48, the density curve. *)
Definition x : list R :=
  Np.linspace (process_mean i - 4 * process_std i)
              (process_mean i + 4 * process_std i) 1000.

Definition pdf : list R :=
  map (fun v => Norm.pdf v (process_mean i) (process_std i)) x.

(** Lines 54-62, the shaded regions. *)
Definition in_spec_mask : list bool :=
  Np.and_ (Np.ge x (lower_spec i)) (Np.le x (upper_spec i)).

Definition in_spec_x : list R := Np.take x in_spec_mask.
Definition in_spec_pdf : list R := Np.take pdf in_spec_mask.

Definition lower_out_x : list R := Np.take x (Np.lt x (lower_spec i)).
Definition lower_out_pdf : list R := Np.take pdf (Np.lt x (lower_spec i)).
Definition upper_out_x : list R := Np.take x (Np.gt x (upper_spec i)).
Definition upper_out_pdf : list R := Np.take pdf (Np.gt x (upper_spec i)).

(** Line 124. *)
Definition improved_mean : R :=
  if centered_mean i then target_dimension i else process_mean i.

(** Lines 127-132. *)
Definition z_lower_improved : Py.result R :=
  Py.truediv (lower_spec i - improved_mean) (improved_std i).

Definition z_upper_improved : Py.result R :=
  Py.truediv (upper_spec i - improved_mean) (improved_std i).

Definition defect_rate_improved : Py.result R :=
  zl <- z_lower_improved ;;
  zu <- z_upper_improved ;;
  ret ((1 - (Norm.cdf zu - Norm.cdf zl)) * 100).

Definition good_parts_improved : Py.result R :=
  d <- defect_rate_improved ;;
  ret (IZR (batch_size i) * (1 - d / 100)).

Definition total_revenue_improved : Py.result R :=
  g <- good_parts_improved ;;
  ret (g * revenue_per_unit i).

(** Lines 136-137. *)
Definition profit_improved : Py.result R :=
  r <- total_revenue_improved ;;
  ret (r - total_manufacturing_cost - IZR (improvement_cost i)).

Definition roi (parts : list R) : Py.result xfloat :=
  p <- profit_improved ;;
  ret (if Py.gt0 (improvement_cost i)
       then Finite ((p - profit parts) / IZR (improvement_cost i) * 100)
       else PosInf).

(** Line 151, the index recomputed for the improved process. *)
Definition cpk_improved : Py.result R :=
  u <- Py.truediv (upper_spec i - improved_mean) (3 * improved_std i) ;;
  l <- Py.truediv (improved_mean - lower_spec i) (3 * improved_std i) ;;
  ret (Py.min u l).

End Main.

(** ** [main] *)

(** What one run of [main] hands to the page: the figures it writes and the
    data it plots. *)
Module Report.

Record t : Type := {
  manufactured_parts : list R;
  defects : Z;
  defect_rate : xfloat;
  good_parts : Z;
  total_manufacturing_cost : R;
  total_revenue : R;
  profit : R;
  cp : R;
  cpk : R;
  x : list R;
  pdf : list R;
  in_spec_x : list R;
  lower_out_x : list R;
  upper_out_x : list R;
  defect_rate_improved : R;
  profit_improved : R;
  roi : xfloat;
  cpk_improved : R
}.

End Report.

(** The assignments in the order of the script; a step that raises ends the
    run and no report is produced. *)
Definition main (i : Inputs) (gauss : nat -> R) : Py.result Report.t :=
  parts <- manufactured_parts i gauss ;;
  cp_ <- cp i ;;
  cpk_ <- cpk i ;;
  defect_rate_improved_ <- defect_rate_improved i ;;
  profit_improved_ <- profit_improved i ;;
  roi_ <- roi i parts ;;
  cpk_improved_ <- cpk_improved i ;;
  ret {| Report.manufactured_parts := parts;
         Report.defects := defects i parts;
         Report.defect_rate := defect_rate i parts;
         Report.good_parts := good_parts i parts;
         Report.total_manufacturing_cost := total_manufacturing_cost i;
         Report.total_revenue := total_revenue i parts;
         Report.profit := profit i parts;
         Report.cp := cp_;
         Report.cpk := cpk_;
         Report.x := x i;
         Report.pdf := pdf i;
         Report.in_spec_x := in_spec_x i;
         Report.lower_out_x := lower_out_x i;
         Report.upper_out_x := upper_out_x i;
         Report.defect_rate_improved := defect_rate_improved_;
         Report.profit_improved := profit_improved_;
         Report.roi := roi_;
         Report.cpk_improved := cpk_improved_ |}.

(** ** Properties stated by the specification *)

(** [counts P l n]: exactly [n] entries of [l] satisfy [P]. *)
Inductive counts {A : Type} (P : A -> Prop) : list A -> Z -> Prop :=
| counts_nil : counts P [] 0%Z
| counts_hit v l n : P v -> counts P l n -> counts P (v :: l) (n + 1)%Z
| counts_miss v l n : ~ P v -> counts P l n -> counts P (v :: l) n.

(** A part is out of specification when strictly below the lower limit or
    strictly above the upper limit. *)
Definition out_of_spec (i : Inputs) (v : R) : Prop :=
  v < lower_spec i \/ v > upper_spec i.

(** A part exactly at a limit counts as in specification: adding it to a
    batch leaves the number of defects unchanged. *)
Definition boundary_in_spec (i : Inputs) : Prop :=
  forall (v : R) (parts : list R),
    v = lower_spec i \/ v = upper_spec i ->
    defects i (v :: parts) = defects i parts.

(** The three shaded regions partition the points of the curve, and a
    point at a limit is within specification. *)
Definition shaded_partition (i : Inputs) : Prop :=
  forall v : R, In v (x i) ->
    (In v (in_spec_x i) /\ ~ In v (lower_out_x i) /\ ~ In v (upper_out_x i) \/
     ~ In v (in_spec_x i) /\ In v (lower_out_x i) /\ ~ In v (upper_out_x i) \/
     ~ In v (in_spec_x i) /\ ~ In v (lower_out_x i) /\ In v (upper_out_x i)) /\
    (v = lower_spec i \/ v = upper_spec i -> In v (in_spec_x i)).

(** The inputs [i] with another improved standard deviation. *)
Definition with_improved_std (i : Inputs) (s : R) : Inputs :=
  {| target_dimension := target_dimension i;
     process_mean := process_mean i;
     process_std := process_std i;
     lower_spec := lower_spec i;
     upper_spec := upper_spec i;
     batch_size := batch_size i;
     cost_per_unit := cost_per_unit i;
     revenue_per_unit := revenue_per_unit i;
     improved_std := s;
     centered_mean := centered_mean i;
     improvement_cost := improvement_cost i |}.

(** The analytic defect rate does not decrease when the improved standard
    deviation grows from [s1] to [s2]. *)
Definition defect_rate_monotone (i : Inputs) (s1 s2 : R) : Prop :=
  exists d1 d2 : R,
    defect_rate_improved (with_improved_std i s1) = inr d1 /\
    defect_rate_improved (with_improved_std i s2) = inr d2 /\
    d1 <= d2.

(** The run raises and produces no report. *)
Definition rejected (i : Inputs) (gauss : nat -> R) : Prop :=
  exists e : Py.exn, main i gauss = inl e.

(** The defect rate of a normal process of mean [mean] and deviation [std]
    between the limits, from the distribution function. *)
Definition analytic_defect_rate (mean std lower upper : R) : R :=
  (1 - (Norm.cdf ((upper - mean) / std) - Norm.cdf ((lower - mean) / std))) * 100.

(** ** Concrete inputs *)

(** The values the widgets show when the page opens. *)
Definition default_inputs : Inputs :=
  {| target_dimension := 25;
     process_mean := 25003 / 1000;
     process_std := 18 / 1000;
     lower_spec := 2495 / 100;
     upper_spec := 2505 / 100;
     batch_size := 1000;
     cost_per_unit := 5;
     revenue_per_unit := 15;
     improved_std := 144 / 10000;
     centered_mean := false;
     improvement_cost := 5000 |}.

(** A process of mean 25 and deviation 1 whose two limits were typed in the
    wrong order, which the widgets allow. *)
Definition inverted_limits : Inputs :=
  {| target_dimension := 25;
     process_mean := 25;
     process_std := 1;
     lower_spec := 30;
     upper_spec := 20;
     batch_size := 1000;
     cost_per_unit := 5;
     revenue_per_unit := 15;
     improved_std := 1;
     centered_mean := false;
     improvement_cost := 5000 |}.

(** The defaults with both limits at the target. *)
Definition equal_limits : Inputs :=
  {| target_dimension := 25;
     process_mean := 25003 / 1000;
     process_std := 18 / 1000;
     lower_spec := 25;
     upper_spec := 25;
     batch_size := 1000;
     cost_per_unit := 5;
     revenue_per_unit := 15;
     improved_std := 144 / 10000;
     centered_mean := false;
     improvement_cost := 5000 |}.

(** A process whose mean, 22, lies above both limits, 20 and 21. *)
Definition off_center : Inputs :=
  {| target_dimension := 25;
     process_mean := 22;
     process_std := 1;
     lower_spec := 20;
     upper_spec := 21;
     batch_size := 1000;
     cost_per_unit := 5;
     revenue_per_unit := 15;
     improved_std := 1;
     centered_mean := false;
     improvement_cost := 5000 |}.

(** The defaults with the improved standard deviation left at the current one. *)
Definition unchanged_process : Inputs := with_improved_std default_inputs (18 / 1000).

(** ** The messages of [main] *)

(** A call of [st.error], [st.warning] or [st.success] with its text. *)
Inductive message : Type :=
| st_error (text : string)
| st_warning (text : string)
| st_success (text : string).

(** Lines 97-102, the verdict on the capability of the process. *)
Definition capability_message (i : Inputs) : Py.result message :=
  k <- cpk i ;;
  ret (if Rlt_dec k 1
       then st_error "Process is not capable (Cpk < 1.0)"
       else if Rlt_dec k (133 / 100)
       then st_warning "Process is marginally capable (1.0 ≤ Cpk < 1.33)"
       else st_success "Process is capable (Cpk ≥ 1.33)").

(** Lines 112-115, the verdict on the profit of the batch. *)
Definition profit_message (i : Inputs) (parts : list R) : message :=
  if Rlt_dec (profit i parts) 0
  then st_error "The process is operating at a loss"
  else st_success "The process is profitable".

(** The inputs [i] with other specification limits. *)
Definition with_limits (i : Inputs) (lower upper : R) : Inputs :=
  {| target_dimension := target_dimension i;
     process_mean := process_mean i;
     process_std := process_std i;
     lower_spec := lower;
     upper_spec := upper;
     batch_size := batch_size i;
     cost_per_unit := cost_per_unit i;
     revenue_per_unit := revenue_per_unit i;
     improved_std := improved_std i;
     centered_mean := centered_mean i;
     improvement_cost := improvement_cost i |}.

(** The inputs [i] with another batch size. *)
Definition with_batch_size (i : Inputs) (n : Z) : Inputs :=
  {| target_dimension := target_dimension i;
     process_mean := process_mean i;
     process_std := process_std i;
     lower_spec := lower_spec i;
     upper_spec := upper_spec i;
     batch_size := n;
     cost_per_unit := cost_per_unit i;
     revenue_per_unit := revenue_per_unit i;
     improved_std := improved_std i;
     centered_mean := centered_mean i;
     improvement_cost := improvement_cost i |}.

(** ** Proof automation *)

(** Decide the comparisons of a mask on concrete reals. *)
Ltac compare_reals :=
  unfold Np.ltb, Np.gtb, Np.leb, Np.geb, Py.min;
  repeat match goal with
         | |- context [Rlt_dec ?a ?b] => destruct (Rlt_dec a b); try lra
         | |- context [Rgt_dec ?a ?b] => destruct (Rgt_dec a b); try lra
         | |- context [Rle_dec ?a ?b] => destruct (Rle_dec a b); try lra
         | |- context [Rge_dec ?a ?b] => destruct (Rge_dec a b); try lra
         end.

(** ** Python and NumPy primitives *)

Lemma truediv_nonzero (a b : R) : b <> 0 -> Py.truediv a b = inr (a / b).
Proof.
  intros Hb. unfold Py.truediv. destruct (Req_dec_T b 0); [contradiction | reflexivity].
Qed.

Lemma truediv_zero (a b : R) : b = 0 -> Py.truediv a b = inl Py.ZeroDivisionError.
Proof.
  intros Hb. unfold Py.truediv. destruct (Req_dec_T b 0); [reflexivity | contradiction].
Qed.

Lemma py_min_Rmin (a b : R) : Py.min a b = Rmin a b.
Proof.
  unfold Py.min, Rmin. destruct (Rlt_dec b a), (Rle_dec a b); lra.
Qed.

Lemma ltb_spec (a b : R) : Np.ltb a b = true <-> a < b.
Proof. unfold Np.ltb. destruct (Rlt_dec a b); split; intros; congruence || assumption. Qed.

Lemma gtb_spec (a b : R) : Np.gtb a b = true <-> a > b.
Proof. unfold Np.gtb. destruct (Rgt_dec a b); split; intros; congruence || assumption. Qed.

Lemma leb_spec (a b : R) : Np.leb a b = true <-> a <= b.
Proof. unfold Np.leb. destruct (Rle_dec a b); split; intros; congruence || assumption. Qed.

Lemma geb_spec (a b : R) : Np.geb a b = true <-> a >= b.
Proof. unfold Np.geb. destruct (Rge_dec a b); split; intros; congruence || assumption. Qed.

Lemma zip_with_map {A B C D : Type} (f : B -> C -> D) (g : A -> B) (h : A -> C)
  (l : list A) :
  Np.zip_with f (map g l) (map h l) = map (fun a => f (g a) (h a)) l.
Proof.
  induction l as [| a l IH]; simpl; [reflexivity | now rewrite IH].
Qed.

Lemma sum_bounds (m : list bool) : (0 <= Np.sum m <= Z.of_nat (length m))%Z.
Proof.
  induction m as [| b m IH]; simpl length; simpl Np.sum; [lia |].
  destruct b; lia.
Qed.

Lemma sum_map_counts {A : Type} (P : A -> Prop) (p : A -> bool) (l : list A) :
  (forall a, p a = true <-> P a) -> counts P l (Np.sum (map p l)).
Proof.
  intros Hp. induction l as [| a l IH]; simpl.
  - constructor.
  - destruct (p a) eqn:E.
    + rewrite Z.add_comm. apply counts_hit; [now apply Hp | exact IH].
    + apply counts_miss; [| exact IH].
      intros HP. apply Hp in HP. congruence.
Qed.

Lemma counts_functional {A : Type} (P : A -> Prop) (l : list A) (n m : Z) :
  counts P l n -> counts P l m -> n = m.
Proof.
  intros Hn. revert m. induction Hn; intros m Hm; inversion Hm; subst;
    try reflexivity; try contradiction.
  - f_equal. now apply IHHn.
  - now apply IHHn.
Qed.

Lemma In_take_map {A : Type} (p : A -> bool) (l : list A) (v : A) :
  In v (Np.take l (map p l)) <-> In v l /\ p v = true.
Proof.
  induction l as [| a l IH]; simpl.
  - tauto.
  - destruct (p a) eqn:E; simpl; rewrite IH.
    + split.
      * intros [-> | [H1 H2]]; auto.
      * intros [[-> | H1] H2]; auto.
    + split.
      * intros [H1 H2]; auto.
      * intros [[-> | H1] H2]; [congruence | auto].
Qed.

Lemma length_take_map {A : Type} (p : A -> bool) (l : list A) :
  length (Np.take l (map p l)) = length (filter p l).
Proof.
  induction l as [| a l IH]; simpl; [reflexivity |].
  destruct (p a); simpl; now rewrite IH.
Qed.

Lemma defects_unfold (i : Inputs) (parts : list R) :
  defects i parts =
  Np.sum (map (fun v => Np.ltb v (lower_spec i) || Np.gtb v (upper_spec i)) parts).
Proof.
  unfold defects, Np.or_, Np.lt, Np.gt. now rewrite zip_with_map.
Qed.

Lemma out_of_spec_mask (i : Inputs) (v : R) :
  Np.ltb v (lower_spec i) || Np.gtb v (upper_spec i) = true <-> out_of_spec i v.
Proof.
  unfold out_of_spec. rewrite orb_true_iff, ltb_spec, gtb_spec. tauto.
Qed.

Lemma defects_bounds (i : Inputs) (parts : list R) :
  (0 <= defects i parts <= Z.of_nat (length parts))%Z.
Proof.
  rewrite defects_unfold.
  pose proof (sum_bounds
    (map (fun v => Np.ltb v (lower_spec i) || Np.gtb v (upper_spec i)) parts)) as H.
  now rewrite length_map in H.
Qed.

Lemma random_normal_length (gauss : nat -> R) (loc scale : R) (size : Z)
  (parts : list R) :
  Np.random_normal gauss loc scale size = inr parts ->
  Z.of_nat (length parts) = size.
Proof.
  unfold Np.random_normal.
  destruct (Rlt_dec scale 0); [discriminate |].
  destruct (size <? 0)%Z eqn:E; [discriminate |].
  intros H. injection H as <-. rewrite length_map, length_seq.
  apply Z.ltb_ge in E. lia.
Qed.

Lemma default_inputs_in_bounds : widget_bounds default_inputs.
Proof. unfold widget_bounds; simpl. repeat split; lra || lia. Qed.

Lemma inverted_limits_in_bounds : widget_bounds inverted_limits.
Proof. unfold widget_bounds; simpl. repeat split; lra || lia. Qed.

(** ** Defect count and rate (lines 28-33) *)

Lemma defect_rate_finite (i : Inputs) (parts : list R) :
  batch_size i <> 0%Z ->
  defect_rate i parts =
  Finite (IZR (defects i parts) / IZR (batch_size i) * 100).
Proof.
  intros Hb. unfold defect_rate, Np.true_divide.
  destruct (batch_size i =? 0)%Z eqn:E; [apply Z.eqb_eq in E; contradiction |].
  reflexivity.
Qed.

Lemma boundary_in_spec_ordered (i : Inputs) :
  lower_spec i <= upper_spec i -> boundary_in_spec i.
Proof.
  intros Hlu v parts Hv. rewrite !defects_unfold. simpl.
  replace (Np.ltb v (lower_spec i) || Np.gtb v (upper_spec i)) with false;
    [reflexivity |].
  symmetry. apply orb_false_iff.
  split; destruct Hv as [-> | ->]; compare_reals; reflexivity.
Qed.

(** C2, as the code has it.  The number of defects is the number of parts
    strictly below the lower limit or strictly above the upper limit, and
    for a non-empty batch size the defect rate is
    defects / batch_size * 100.  A part exactly at a limit counts as in
    specification provided the limits are ordered, lower <= upper. *)
Theorem defects_count_and_rate (i : Inputs) (parts : list R) :
  counts (out_of_spec i) parts (defects i parts) /\
  (batch_size i <> 0%Z ->
   defect_rate i parts =
   Finite (IZR (defects i parts) / IZR (batch_size i) * 100)) /\
  (lower_spec i <= upper_spec i -> boundary_in_spec i).
Proof.
  split; [| split].
  - rewrite defects_unfold. apply sum_map_counts.
    intros v. apply out_of_spec_mask.
  - apply defect_rate_finite.
  - apply boundary_in_spec_ordered.
Qed.

Lemma defects_count_and_rate_witness :
  counts (out_of_spec default_inputs) [2494 / 100; 25; 2505 / 100; 2506 / 100]
         (defects default_inputs [2494 / 100; 25; 2505 / 100; 2506 / 100]) /\
  defect_rate default_inputs [2494 / 100; 25; 2505 / 100; 2506 / 100] =
  Finite (IZR (defects default_inputs [2494 / 100; 25; 2505 / 100; 2506 / 100])
          / IZR 1000 * 100) /\
  boundary_in_spec default_inputs.
Proof.
  destruct (defects_count_and_rate default_inputs
              [2494 / 100; 25; 2505 / 100; 2506 / 100]) as (Hc & Hr & Hb).
  split; [exact Hc | split].
  - apply Hr. simpl. lia.
  - apply Hb. simpl. lra.
Defined.

(** With the limits in the wrong order a part equal to the lower limit, 30,
    lies above the upper limit, 20, and is counted as a defect. *)
Lemma boundary_part_counted_when_limits_inverted :
  defects inverted_limits [30] = 1%Z /\ ~ boundary_in_spec inverted_limits.
Proof.
  assert (H1 : defects inverted_limits [30] = 1%Z).
  { rewrite defects_unfold. simpl. compare_reals; reflexivity. }
  split; [exact H1 |].
  intros H. specialize (H 30 [] (or_introl eq_refl)).
  rewrite H1 in H. discriminate H.
Qed.

(** C3.  For a batch of [batch_size] parts the defective and the good parts
    add up to the batch size and neither count is negative. *)
Theorem counts_add_up (i : Inputs) (parts : list R) :
  Z.of_nat (length parts) = batch_size i ->
  (defects i parts + good_parts i parts = batch_size i)%Z /\
  (0 <= defects i parts)%Z /\
  (0 <= good_parts i parts)%Z.
Proof.
  intros Hlen. pose proof (defects_bounds i parts) as Hd.
  unfold good_parts. lia.
Qed.

Lemma counts_add_up_witness :
  (defects default_inputs (repeat 25%R 1000)
   + good_parts default_inputs (repeat 25%R 1000) = 1000)%Z /\
  (0 <= defects default_inputs (repeat 25%R 1000))%Z /\
  (0 <= good_parts default_inputs (repeat 25%R 1000))%Z.
Proof.
  apply (counts_add_up default_inputs (repeat 25%R 1000)).
  rewrite repeat_length. reflexivity.
Defined.

(** The batch drawn by [main] has [batch_size] parts, so the counts of a
    report add up as well. *)
Lemma report_counts_sum (i : Inputs) (gauss : nat -> R) (r : Report.t) :
  main i gauss = inr r ->
  (Report.defects r + Report.good_parts r = batch_size i)%Z /\
  (0 <= Report.defects r)%Z /\
  (0 <= Report.good_parts r)%Z.
Proof.
  unfold main. destruct (manufactured_parts i gauss) as [e | parts] eqn:Hp;
    [discriminate |].
  apply random_normal_length in Hp. simpl.
  destruct (cp i); [discriminate |]. simpl.
  destruct (cpk i); [discriminate |]. simpl.
  destruct (defect_rate_improved i); [discriminate |]. simpl.
  destruct (profit_improved i); [discriminate |]. simpl.
  destruct (roi i parts); [discriminate |]. simpl.
  destruct (cpk_improved i); [discriminate |]. simpl.
  intros H. injection H as <-. simpl.
  pose proof (defects_bounds i parts) as Hd.
  unfold good_parts. lia.
Qed.

(** ** Capability indices (lines 38-41) *)

Lemma cp_value (i : Inputs) :
  process_std i <> 0 ->
  cp i = inr ((upper_spec i - lower_spec i) / (6 * process_std i)).
Proof. intros Hs. unfold cp. apply truediv_nonzero. lra. Qed.

Lemma cpu_value (i : Inputs) :
  process_std i <> 0 ->
  cpu i = inr ((upper_spec i - process_mean i) / (3 * process_std i)).
Proof. intros Hs. unfold cpu. apply truediv_nonzero. lra. Qed.

Lemma cpl_value (i : Inputs) :
  process_std i <> 0 ->
  cpl i = inr ((process_mean i - lower_spec i) / (3 * process_std i)).
Proof. intros Hs. unfold cpl. apply truediv_nonzero. lra. Qed.

Lemma cpk_value (i : Inputs) :
  process_std i <> 0 ->
  cpk i = inr (Rmin ((upper_spec i - process_mean i) / (3 * process_std i))
                    ((process_mean i - lower_spec i) / (3 * process_std i))).
Proof.
  intros Hs. unfold cpk. rewrite cpu_value, cpl_value by exact Hs.
  simpl. now rewrite py_min_Rmin.
Qed.

Lemma cp_sign (i : Inputs) :
  0 < process_std i ->
  (lower_spec i < upper_spec i ->
   0 < (upper_spec i - lower_spec i) / (6 * process_std i)) /\
  (upper_spec i <= lower_spec i ->
   (upper_spec i - lower_spec i) / (6 * process_std i) <= 0).
Proof.
  intros Hs. unfold Rdiv.
  assert (Hinv : 0 < / (6 * process_std i)) by (apply Rinv_0_lt_compat; lra).
  split; intros H; nra.
Qed.

(** C4.  With a positive standard deviation and lower < upper the four
    indices are computed, Cp = (upper-lower)/(6*std),
    Cpu = (upper-mean)/(3*std), Cpl = (mean-lower)/(3*std) and
    Cpk = min(Cpu, Cpl), and Cp is not negative. *)
Theorem capability_indices (i : Inputs) :
  0 < process_std i ->
  lower_spec i < upper_spec i ->
  cp i = inr ((upper_spec i - lower_spec i) / (6 * process_std i)) /\
  cpu i = inr ((upper_spec i - process_mean i) / (3 * process_std i)) /\
  cpl i = inr ((process_mean i - lower_spec i) / (3 * process_std i)) /\
  cpk i = inr (Rmin ((upper_spec i - process_mean i) / (3 * process_std i))
                    ((process_mean i - lower_spec i) / (3 * process_std i))) /\
  0 <= (upper_spec i - lower_spec i) / (6 * process_std i).
Proof.
  intros Hs Hlu. assert (Hs' : process_std i <> 0) by lra.
  repeat split.
  - now apply cp_value.
  - now apply cpu_value.
  - now apply cpl_value.
  - now apply cpk_value.
  - apply Rlt_le. now apply cp_sign.
Qed.

Lemma capability_indices_witness :
  cp default_inputs = inr ((2505 / 100 - 2495 / 100) / (6 * (18 / 1000))) /\
  cpu default_inputs = inr ((2505 / 100 - 25003 / 1000) / (3 * (18 / 1000))) /\
  cpl default_inputs = inr ((25003 / 1000 - 2495 / 100) / (3 * (18 / 1000))) /\
  cpk default_inputs =
  inr (Rmin ((2505 / 100 - 25003 / 1000) / (3 * (18 / 1000)))
            ((25003 / 1000 - 2495 / 100) / (3 * (18 / 1000)))) /\
  0 <= (2505 / 100 - 2495 / 100) / (6 * (18 / 1000)).
Proof.
  apply (capability_indices default_inputs); simpl; lra.
Defined.

(** ** Improvement scenario (lines 124-137, 151) *)

Lemma defect_rate_improved_value (i : Inputs) :
  improved_std i <> 0 ->
  defect_rate_improved i =
  inr (analytic_defect_rate (improved_mean i) (improved_std i)
                            (lower_spec i) (upper_spec i)).
Proof.
  intros Hs. unfold defect_rate_improved, z_lower_improved, z_upper_improved.
  rewrite !truediv_nonzero by exact Hs. reflexivity.
Qed.

Lemma good_parts_improved_value (i : Inputs) :
  improved_std i <> 0 ->
  good_parts_improved i =
  inr (IZR (batch_size i)
       * (1 - analytic_defect_rate (improved_mean i) (improved_std i)
                                   (lower_spec i) (upper_spec i) / 100)).
Proof.
  intros Hs. unfold good_parts_improved.
  rewrite defect_rate_improved_value by exact Hs. reflexivity.
Qed.

Lemma total_revenue_improved_value (i : Inputs) :
  improved_std i <> 0 ->
  exists g : R,
    good_parts_improved i = inr g /\
    total_revenue_improved i = inr (g * revenue_per_unit i).
Proof.
  intros Hs. eexists. split; [now apply good_parts_improved_value |].
  unfold total_revenue_improved.
  rewrite good_parts_improved_value by exact Hs. reflexivity.
Qed.

Lemma profit_improved_value (i : Inputs) :
  improved_std i <> 0 ->
  exists r : R,
    total_revenue_improved i = inr r /\
    profit_improved i =
    inr (r - total_manufacturing_cost i - IZR (improvement_cost i)).
Proof.
  intros Hs. destruct (total_revenue_improved_value i Hs) as (g & _ & Hr).
  eexists. split; [exact Hr |].
  unfold profit_improved. rewrite Hr. reflexivity.
Qed.

(** C5.  Once the improved profit is computed, the return on investment is
    (profit_improved - profit) / investment * 100 for a positive investment
    and the infinite marker, not a number and not an error, for an
    investment of zero. *)
Theorem roi_formula (i : Inputs) (parts : list R) :
  improved_std i <> 0 ->
  exists p : R,
    profit_improved i = inr p /\
    ((0 < improvement_cost i)%Z ->
     roi i parts =
     inr (Finite ((p - profit i parts) / IZR (improvement_cost i) * 100))) /\
    (improvement_cost i = 0%Z ->
     roi i parts = inr PosInf /\ PosInf <> Finite 0).
Proof.
  intros Hs. destruct (profit_improved_value i Hs) as (r & _ & Hp).
  eexists. split; [exact Hp |].
  unfold roi, Py.gt0. rewrite Hp. simpl. split.
  - intros Hc. apply Z.ltb_lt in Hc. now rewrite Hc.
  - intros Hc. rewrite Hc. simpl. split; [reflexivity | discriminate].
Qed.

Lemma roi_formula_witness :
  exists p : R,
    profit_improved default_inputs = inr p /\
    roi default_inputs [25] =
    inr (Finite ((p - profit default_inputs [25]) / IZR 5000 * 100)).
Proof.
  destruct (roi_formula default_inputs [25]) as (p & Hp & Hpos & _).
  - simpl. lra.
  - exists p. split; [exact Hp |]. apply Hpos. simpl. lia.
Defined.

(** C6.  With a positive improved standard deviation, the improved mean is
    the target when the process is centered and the current mean otherwise,
    the improved defect rate is
    (1 - (CDF((upper - mean')/std') - CDF((lower - mean')/std'))) * 100 and
    the expected good parts are batch_size * (1 - rate/100). *)
Theorem improved_defect_rate (i : Inputs) :
  0 < improved_std i ->
  (centered_mean i = true -> improved_mean i = target_dimension i) /\
  (centered_mean i = false -> improved_mean i = process_mean i) /\
  defect_rate_improved i =
  inr ((1 - (Norm.cdf ((upper_spec i - improved_mean i) / improved_std i)
             - Norm.cdf ((lower_spec i - improved_mean i) / improved_std i)))
       * 100) /\
  exists d : R,
    defect_rate_improved i = inr d /\
    good_parts_improved i = inr (IZR (batch_size i) * (1 - d / 100)).
Proof.
  intros Hs. assert (Hs' : improved_std i <> 0) by lra.
  split; [| split; [| split]].
  - intros Hc. unfold improved_mean. now rewrite Hc.
  - intros Hc. unfold improved_mean. now rewrite Hc.
  - now apply defect_rate_improved_value.
  - eexists. split; [now apply defect_rate_improved_value |].
    now apply good_parts_improved_value.
Qed.

Lemma improved_defect_rate_witness :
  improved_mean default_inputs = 25003 / 1000 /\
  defect_rate_improved default_inputs =
  inr ((1 - (Norm.cdf ((2505 / 100 - improved_mean default_inputs) / (144 / 10000))
             - Norm.cdf ((2495 / 100 - improved_mean default_inputs) / (144 / 10000))))
       * 100).
Proof.
  destruct (improved_defect_rate default_inputs) as (_ & Hm & Hd & _).
  - simpl. lra.
  - split; [apply Hm; reflexivity | exact Hd].
Defined.

(** C8.  When the improved standard deviation is the current one and the
    process is not centered, the indices recomputed for the improved
    process, Cpu and Cpl inside the Cpk of line 151, are those of the
    current process, and so is the Cpk that a report shows. *)
Theorem unchanged_process_same_indices (i : Inputs) :
  improved_std i = process_std i ->
  centered_mean i = false ->
  Py.truediv (upper_spec i - improved_mean i) (3 * improved_std i) = cpu i /\
  Py.truediv (improved_mean i - lower_spec i) (3 * improved_std i) = cpl i /\
  cpk_improved i = cpk i /\
  forall (gauss : nat -> R) (r : Report.t),
    main i gauss = inr r -> Report.cpk_improved r = Report.cpk r.
Proof.
  intros Hs Hc.
  assert (Hm : improved_mean i = process_mean i)
    by (unfold improved_mean; now rewrite Hc).
  assert (Hk : cpk_improved i = cpk i)
    by (unfold cpk_improved, cpk, cpu, cpl; now rewrite Hm, Hs).
  repeat split.
  - unfold cpu. now rewrite Hm, Hs.
  - unfold cpl. now rewrite Hm, Hs.
  - exact Hk.
  - intros gauss r. unfold main. rewrite Hk.
    destruct (manufactured_parts i gauss) as [e | parts]; [discriminate |]. simpl.
    destruct (cp i); [discriminate |]. simpl.
    destruct (cpk i); [discriminate |]. simpl.
    destruct (defect_rate_improved i); [discriminate |]. simpl.
    destruct (profit_improved i); [discriminate |]. simpl.
    destruct (roi i parts); [discriminate |]. simpl.
    intros H. injection H as <-. reflexivity.
Qed.

Lemma unchanged_process_same_indices_witness :
  cpk_improved unchanged_process = cpk unchanged_process /\
  cpk unchanged_process =
  inr (Rmin ((2505 / 100 - 25003 / 1000) / (3 * (18 / 1000)))
            ((25003 / 1000 - 2495 / 100) / (3 * (18 / 1000)))).
Proof.
  split.
  - apply (unchanged_process_same_indices unchanged_process); reflexivity.
  - apply (cpk_value unchanged_process). simpl. lra.
Defined.

(** C9.  The cost of the batch is batch_size * cost_per_unit, the revenue
    good_parts * revenue_per_unit and the profit their difference; the
    improved profit is the improved revenue minus the cost of the current
    batch minus the investment. *)
Theorem financial_figures (i : Inputs) (parts : list R) :
  improved_std i <> 0 ->
  total_manufacturing_cost i = IZR (batch_size i) * cost_per_unit i /\
  total_revenue i parts = IZR (good_parts i parts) * revenue_per_unit i /\
  profit i parts = total_revenue i parts - total_manufacturing_cost i /\
  exists r : R,
    total_revenue_improved i = inr r /\
    profit_improved i =
    inr (r - total_manufacturing_cost i - IZR (improvement_cost i)).
Proof.
  intros Hs. repeat split. now apply profit_improved_value.
Qed.

Lemma financial_figures_witness :
  total_manufacturing_cost default_inputs = 5000 /\
  exists r : R,
    total_revenue_improved default_inputs = inr r /\
    profit_improved default_inputs = inr (r - 5000 - 5000).
Proof.
  destruct (financial_figures default_inputs []) as (Hc & _ & _ & r & Hr & Hp).
  - simpl. lra.
  - assert (Ht : total_manufacturing_cost default_inputs = 5000).
    { rewrite Hc. simpl. lra. }
    split; [exact Ht |].
    exists r. split; [exact Hr |]. rewrite Hp, Ht. reflexivity.
Defined.

(** ** Shaded regions of the density plot (lines 47-62) *)

Lemma x_length (i : Inputs) : length (x i) = 1000%nat.
Proof. unfold x, Np.linspace. now rewrite length_map, length_seq. Qed.

Lemma x_first (i : Inputs) : In (process_mean i - 4 * process_std i) (x i).
Proof.
  unfold x, Np.linspace. apply in_map_iff. exists 0%nat. split.
  - change (INR 0) with 0. lra.
  - apply in_seq. lia.
Qed.

Lemma in_spec_mask_unfold (i : Inputs) :
  in_spec_mask i =
  map (fun v => Np.geb v (lower_spec i) && Np.leb v (upper_spec i)) (x i).
Proof. unfold in_spec_mask, Np.and_, Np.ge, Np.le. now rewrite zip_with_map. Qed.

Lemma In_in_spec_x (i : Inputs) (v : R) :
  In v (in_spec_x i) <-> In v (x i) /\ lower_spec i <= v <= upper_spec i.
Proof.
  unfold in_spec_x. rewrite in_spec_mask_unfold, In_take_map.
  rewrite andb_true_iff, geb_spec, leb_spec. intuition lra.
Qed.

Lemma In_lower_out_x (i : Inputs) (v : R) :
  In v (lower_out_x i) <-> In v (x i) /\ v < lower_spec i.
Proof.
  unfold lower_out_x, Np.lt. now rewrite In_take_map, ltb_spec.
Qed.

Lemma In_upper_out_x (i : Inputs) (v : R) :
  In v (upper_out_x i) <-> In v (x i) /\ v > upper_spec i.
Proof.
  unfold upper_out_x, Np.gt. now rewrite In_take_map, gtb_spec.
Qed.

Lemma filter_three_way {A : Type} (p q r : A -> bool) (l : list A) :
  (forall a, In a l ->
     (p a = true /\ q a = false /\ r a = false) \/
     (p a = false /\ q a = true /\ r a = false) \/
     (p a = false /\ q a = false /\ r a = true)) ->
  (length (filter p l) + length (filter q l) + length (filter r l))%nat = length l.
Proof.
  induction l as [| a l IH]; intros H; [reflexivity |].
  assert (IH' := IH (fun b Hb => H b (or_intror Hb))).
  simpl. destruct (H a (or_introl eq_refl)) as [(-> & -> & ->) | [(-> & -> & ->) | (-> & -> & ->)]];
    simpl; lia.
Qed.

Lemma shaded_lengths (i : Inputs) :
  lower_spec i <= upper_spec i ->
  (length (in_spec_x i) + length (lower_out_x i) + length (upper_out_x i))%nat
  = 1000%nat.
Proof.
  intros Hlu. rewrite <- (x_length i).
  unfold in_spec_x, lower_out_x, upper_out_x, Np.lt, Np.gt.
  rewrite in_spec_mask_unfold, !length_take_map.
  apply filter_three_way. intros v _.
  destruct (Rlt_dec v (lower_spec i)) as [H1 | H1];
    [| destruct (Rgt_dec v (upper_spec i)) as [H2 | H2]].
  - right; left. repeat split; compare_reals; reflexivity.
  - right; right. repeat split; compare_reals; reflexivity.
  - left. repeat split; compare_reals; reflexivity.
Qed.

(** C10, as the code has it.  When the limits are ordered, lower <= upper,
    every one of the 1000 points of the curve lies in exactly one of the
    three shaded regions, a point at a limit lies within specification, and
    the sizes of the regions add up to 1000. *)
Theorem shaded_regions_partition (i : Inputs) :
  lower_spec i <= upper_spec i ->
  shaded_partition i /\
  length (x i) = 1000%nat /\
  (length (in_spec_x i) + length (lower_out_x i) + length (upper_out_x i))%nat
  = 1000%nat.
Proof.
  intros Hlu. split; [| split; [apply x_length | now apply shaded_lengths]].
  intros v Hv. rewrite In_in_spec_x, In_lower_out_x, In_upper_out_x. split.
  - destruct (Rlt_dec v (lower_spec i)) as [H1 | H1];
      [| destruct (Rgt_dec v (upper_spec i)) as [H2 | H2]].
    + right; left. repeat split; try assumption; intros [_ H]; lra.
    + right; right. repeat split; try assumption; intros [_ H]; lra.
    + left. repeat split; try assumption; try lra; intros [_ H]; lra.
  - intros [-> | ->]; split; try assumption; lra.
Qed.

Lemma shaded_regions_partition_witness :
  shaded_partition default_inputs /\
  (length (in_spec_x default_inputs) + length (lower_out_x default_inputs)
   + length (upper_out_x default_inputs))%nat = 1000%nat.
Proof.
  destruct (shaded_regions_partition default_inputs) as (Hp & _ & Hl).
  - simpl. lra.
  - split; [exact Hp | exact Hl].
Defined.

(** With the limits in the wrong order, lower = 30 and upper = 20, the first
    point of the curve, 25 - 4 * 1 = 21, is both below the lower limit and
    above the upper limit: it lies in two regions. *)
Lemma shaded_regions_overlap_when_limits_inverted :
  In 21 (x inverted_limits) /\
  In 21 (lower_out_x inverted_limits) /\
  In 21 (upper_out_x inverted_limits) /\
  ~ shaded_partition inverted_limits.
Proof.
  assert (Hx : In 21 (x inverted_limits)).
  { replace 21 with (process_mean inverted_limits - 4 * process_std inverted_limits)
      by (simpl; lra).
    apply x_first. }
  assert (Hl : In 21 (lower_out_x inverted_limits)).
  { apply In_lower_out_x. split; [exact Hx | simpl; lra]. }
  assert (Hu : In 21 (upper_out_x inverted_limits)).
  { apply In_upper_out_x. split; [exact Hx | simpl; lra]. }
  repeat split; try assumption.
  intros H. destruct (H 21 Hx) as [[(_ & Hn & _) | [(_ & _ & Hn) | (_ & Hn & _)]] _];
    contradiction.
Qed.

(** ** The normal distribution function *)

Lemma std_pdf_pos (t : R) : 0 < Norm.std_pdf t.
Proof.
  unfold Norm.std_pdf. apply Rdiv_lt_0_compat; [apply exp_pos |].
  apply sqrt_lt_R0. pose proof PI_RGT_0. lra.
Qed.

Lemma exp_le (a b : R) : a <= b -> exp a <= exp b.
Proof.
  intros [H | ->]; [left; now apply exp_increasing | right; reflexivity].
Qed.

Lemma std_pdf_le (t c : R) :
  c <= t * t / 2 -> Norm.std_pdf t <= exp (- c) / sqrt (2 * PI).
Proof.
  intros H. unfold Norm.std_pdf, Rdiv. apply Rmult_le_compat_r.
  - left. apply Rinv_0_lt_compat, sqrt_lt_R0. pose proof PI_RGT_0. lra.
  - apply exp_le. lra.
Qed.

Lemma std_pdf_ge (t c : R) :
  t * t / 2 <= c -> exp (- c) / sqrt (2 * PI) <= Norm.std_pdf t.
Proof.
  intros H. unfold Norm.std_pdf, Rdiv. apply Rmult_le_compat_r.
  - left. apply Rinv_0_lt_compat, sqrt_lt_R0. pose proof PI_RGT_0. lra.
  - apply exp_le. lra.
Qed.

Lemma mass_chasles (a b c : R) : Norm.mass a b + Norm.mass b c = Norm.mass a c.
Proof. unfold Norm.mass. apply RiemannInt_P26. Qed.

Lemma mass_le_const (a b m : R) :
  a <= b ->
  (forall t, a < t < b -> Norm.std_pdf t <= m) ->
  Norm.mass a b <= m * (b - a).
Proof.
  intros Hab Hm. rewrite <- (RiemannInt_P15 (RiemannInt_P14 a b m)).
  unfold Norm.mass. apply RiemannInt_P19; [exact Hab |].
  intros t Ht. unfold fct_cte. now apply Hm.
Qed.

Lemma mass_ge_const (a b m : R) :
  a <= b ->
  (forall t, a < t < b -> m <= Norm.std_pdf t) ->
  m * (b - a) <= Norm.mass a b.
Proof.
  intros Hab Hm. rewrite <- (RiemannInt_P15 (RiemannInt_P14 a b m)).
  unfold Norm.mass. apply RiemannInt_P19; [exact Hab |].
  intros t Ht. unfold fct_cte. now apply Hm.
Qed.

Lemma mass_nonneg (a b : R) : a <= b -> 0 <= Norm.mass a b.
Proof.
  intros Hab. replace 0 with (0 * (b - a)) by ring.
  apply mass_ge_const; [exact Hab |].
  intros t _. left. apply std_pdf_pos.
Qed.

Lemma cdf_diff (a b : R) : Norm.cdf b - Norm.cdf a = Norm.mass a b.
Proof.
  unfold Norm.cdf. pose proof (mass_chasles 0 a b). lra.
Qed.

Lemma cdf_monotone (a b : R) : a <= b -> Norm.cdf a <= Norm.cdf b.
Proof.
  intros Hab. pose proof (mass_nonneg a b Hab). pose proof (cdf_diff a b). lra.
Qed.

Lemma cdf_origin : Norm.cdf 0 = 1 / 2.
Proof.
  unfold Norm.cdf, Norm.mass. rewrite RiemannInt_P9. lra.
Qed.

(** ** Monotonicity of the analytic defect rate (lines 127-130) *)

Lemma div_le_numerator_nonneg (n s1 s2 : R) :
  0 <= n -> 0 < s1 -> s1 <= s2 -> n / s2 <= n / s1.
Proof.
  intros Hn Hs1 Hs. unfold Rdiv.
  apply Rmult_le_compat_l; [exact Hn |].
  apply Rinv_le_contravar; assumption.
Qed.

Lemma div_le_numerator_nonpos (n s1 s2 : R) :
  n <= 0 -> 0 < s1 -> s1 <= s2 -> n / s1 <= n / s2.
Proof.
  intros Hn Hs1 Hs.
  pose proof (div_le_numerator_nonneg (- n) s1 s2) as H.
  unfold Rdiv in *. assert (0 <= - n) by lra.
  specialize (H H0 Hs1 Hs). lra.
Qed.

Lemma analytic_defect_rate_monotone (mean lower upper s1 s2 : R) :
  lower <= mean <= upper -> 0 < s1 -> s1 <= s2 ->
  analytic_defect_rate mean s1 lower upper <= analytic_defect_rate mean s2 lower upper.
Proof.
  intros [Hl Hu] Hs1 Hs. unfold analytic_defect_rate.
  assert (H1 : Norm.cdf ((upper - mean) / s2) <= Norm.cdf ((upper - mean) / s1)).
  { apply cdf_monotone, div_le_numerator_nonneg; lra. }
  assert (H2 : Norm.cdf ((lower - mean) / s1) <= Norm.cdf ((lower - mean) / s2)).
  { apply cdf_monotone, div_le_numerator_nonpos; lra. }
  lra.
Qed.

(** C7, as the code has it.  For a fixed improved mean that lies between
    the limits, lower <= mean <= upper, the analytic defect rate does not
    decrease when the improved standard deviation grows: for
    0 < s1 <= s2 the rate at s1 is at most the rate at s2. *)
Theorem defect_rate_monotone_within_limits (i : Inputs) (s1 s2 : R) :
  lower_spec i <= improved_mean i <= upper_spec i ->
  0 < s1 -> s1 <= s2 ->
  defect_rate_monotone i s1 s2.
Proof.
  intros Hm Hs1 Hs. unfold defect_rate_monotone.
  do 2 eexists. split; [| split].
  - apply defect_rate_improved_value. simpl. lra.
  - apply defect_rate_improved_value. simpl. lra.
  - simpl. change (improved_mean (with_improved_std i s1)) with (improved_mean i).
    change (improved_mean (with_improved_std i s2)) with (improved_mean i).
    now apply analytic_defect_rate_monotone.
Qed.

Lemma defect_rate_monotone_within_limits_witness :
  defect_rate_monotone default_inputs (144 / 10000) (18 / 1000).
Proof.
  apply (defect_rate_monotone_within_limits default_inputs);
    unfold improved_mean; simpl; lra.
Defined.

Lemma off_center_in_bounds : widget_bounds off_center.
Proof. unfold widget_bounds; simpl. repeat split; lra || lia. Qed.

Lemma mass_far_tail : Norm.mass (-20) (-10) <= exp (Ropp 50) / sqrt (2 * PI) * 10.
Proof.
  assert (H : Norm.mass (-20) (-10) <= exp (Ropp 50) / sqrt (2 * PI) * (-10 - -20)).
  { apply mass_le_const; [lra |].
    intros t [Hlo Hhi]. apply (std_pdf_le t 50). nra. }
  lra.
Qed.

Lemma mass_near_tail : exp (Ropp 2) / sqrt (2 * PI) * 1 <= Norm.mass (-2) (-1).
Proof.
  assert (H : exp (Ropp 2) / sqrt (2 * PI) * (-1 - -2) <= Norm.mass (-2) (-1)).
  { apply mass_ge_const; [lra |].
    intros t [Hlo Hhi]. apply (std_pdf_ge t 2). nra. }
  lra.
Qed.

Lemma tail_masses : Norm.mass (-20) (-10) < Norm.mass (-2) (-1).
Proof.
  apply Rle_lt_trans with (1 := mass_far_tail).
  apply Rlt_le_trans with (2 := mass_near_tail).
  assert (Hk : 0 < / sqrt (2 * PI)).
  { apply Rinv_0_lt_compat, sqrt_lt_R0. pose proof PI_RGT_0. lra. }
  assert (He : exp (Ropp 50) * 10 < exp (Ropp 2)).
  { replace (Ropp 50) with (Ropp 2 + Ropp 48) by lra. rewrite exp_plus.
    pose proof (exp_pos (- 2)) as H2.
    assert (H48 : exp (Ropp 48) * 10 < 1).
    { rewrite exp_Ropp. pose proof (exp_ineq1_le 48) as H.
      assert (Hp : 0 < exp 48) by apply exp_pos.
      assert (Hi : / exp 48 <= / 49).
      { apply Rinv_le_contravar; lra. }
      lra. }
    assert (Hm : exp (Ropp 2) * (exp (Ropp 48) * 10) < exp (Ropp 2) * 1)
      by (apply Rmult_lt_compat_l; assumption).
    lra. }
  unfold Rdiv.
  assert (Hm : exp (Ropp 50) * 10 * / sqrt (2 * PI) < exp (Ropp 2) * / sqrt (2 * PI))
    by (apply Rmult_lt_compat_r; assumption).
  lra.
Qed.

(** With the mean 22 above the limits 20 and 21, the analytic defect rate
    falls when the improved standard deviation grows from 0.1 to 1: hardly
    any part is within the limits at 0.1, some are at 1. *)
Lemma defect_rate_falls_when_mean_outside_limits :
  lower_spec off_center < upper_spec off_center /\
  0 < 1 / 10 <= 1 /\
  (exists d1 d2 : R,
     defect_rate_improved (with_improved_std off_center (1 / 10)) = inr d1 /\
     defect_rate_improved (with_improved_std off_center 1) = inr d2 /\
     d2 < d1) /\
  ~ defect_rate_monotone off_center (1 / 10) 1.
Proof.
  assert (E1 : defect_rate_improved (with_improved_std off_center (1 / 10))
               = inr ((1 - Norm.mass (-20) (-10)) * 100)).
  { rewrite defect_rate_improved_value by (simpl; lra).
    unfold analytic_defect_rate, improved_mean. simpl.
    rewrite cdf_diff. do 3 f_equal. f_equal; lra. }
  assert (E2 : defect_rate_improved (with_improved_std off_center 1)
               = inr ((1 - Norm.mass (-2) (-1)) * 100)).
  { rewrite defect_rate_improved_value by (simpl; lra).
    unfold analytic_defect_rate, improved_mean. simpl.
    rewrite cdf_diff. do 3 f_equal. f_equal; lra. }
  pose proof tail_masses as Ht.
  split; [simpl; lra |]. split; [lra |]. split.
  - do 2 eexists. split; [exact E1 |]. split; [exact E2 |]. lra.
  - intros (d1 & d2 & H1 & H2 & Hle).
    rewrite E1 in H1. rewrite E2 in H2.
    injection H1 as <-. injection H2 as <-. lra.
Qed.

(** ** Errors raised by [main] *)

Lemma equal_limits_in_bounds : widget_bounds equal_limits.
Proof. unfold widget_bounds; simpl. repeat split; lra || lia. Qed.

Lemma cpk_improved_value (i : Inputs) :
  improved_std i <> 0 ->
  cpk_improved i =
  inr (Py.min ((upper_spec i - improved_mean i) / (3 * improved_std i))
              ((improved_mean i - lower_spec i) / (3 * improved_std i))).
Proof.
  intros Hs. unfold cpk_improved.
  rewrite !truediv_nonzero by lra. reflexivity.
Qed.

Lemma main_raises_negative_std (i : Inputs) (gauss : nat -> R) :
  process_std i < 0 -> main i gauss = inl Py.ValueError.
Proof.
  intros Hs. unfold main, manufactured_parts, Np.random_normal.
  destruct (Rlt_dec (process_std i) 0); [reflexivity | contradiction].
Qed.

Lemma main_raises_negative_batch (i : Inputs) (gauss : nat -> R) :
  (batch_size i < 0)%Z -> main i gauss = inl Py.ValueError.
Proof.
  intros Hb. unfold main, manufactured_parts, Np.random_normal.
  destruct (Rlt_dec (process_std i) 0); [reflexivity |].
  apply Z.ltb_lt in Hb. rewrite Hb. reflexivity.
Qed.

Lemma main_raises_zero_std (i : Inputs) (gauss : nat -> R) :
  process_std i = 0 -> (0 <= batch_size i)%Z ->
  main i gauss = inl Py.ZeroDivisionError.
Proof.
  intros Hs Hb. unfold main, manufactured_parts, Np.random_normal.
  destruct (Rlt_dec (process_std i) 0); [lra |].
  apply Z.ltb_ge in Hb. rewrite Hb. simpl.
  unfold cp. rewrite truediv_zero by lra. reflexivity.
Qed.

Lemma main_rejects_nonpositive_std (i : Inputs) (gauss : nat -> R) :
  process_std i <= 0 -> rejected i gauss.
Proof.
  intros [Hs | Hs].
  - exists Py.ValueError. now apply main_raises_negative_std.
  - destruct (Z_lt_le_dec (batch_size i) 0) as [Hb | Hb].
    + exists Py.ValueError. now apply main_raises_negative_batch.
    + exists Py.ZeroDivisionError. now apply main_raises_zero_std.
Qed.

(** A run on a positive standard deviation, a non-zero improved one and a
    batch size that is not negative returns a report, and the report holds
    the locals of the script. *)
Lemma main_returns_locals (i : Inputs) (gauss : nat -> R) :
  0 < process_std i -> improved_std i <> 0 -> (0 <= batch_size i)%Z ->
  exists (parts : list R) (r : Report.t),
    manufactured_parts i gauss = inr parts /\
    main i gauss = inr r /\
    Report.manufactured_parts r = parts /\
    Report.defects r = defects i parts /\
    Report.defect_rate r = defect_rate i parts /\
    Report.good_parts r = good_parts i parts /\
    Report.total_manufacturing_cost r = total_manufacturing_cost i /\
    Report.total_revenue r = total_revenue i parts /\
    Report.profit r = profit i parts /\
    cp i = inr (Report.cp r) /\
    cpk i = inr (Report.cpk r) /\
    Report.x r = x i /\
    Report.pdf r = pdf i /\
    Report.in_spec_x r = in_spec_x i /\
    Report.lower_out_x r = lower_out_x i /\
    Report.upper_out_x r = upper_out_x i /\
    defect_rate_improved i = inr (Report.defect_rate_improved r) /\
    profit_improved i = inr (Report.profit_improved r) /\
    roi i parts = inr (Report.roi r) /\
    cpk_improved i = inr (Report.cpk_improved r).
Proof.
  intros Hs Hi Hb. assert (Hs' : process_std i <> 0) by lra.
  destruct (profit_improved_value i Hi) as (rev & _ & Hp).
  assert (Hparts : exists parts, manufactured_parts i gauss = inr parts).
  { unfold manufactured_parts, Np.random_normal.
    destruct (Rlt_dec (process_std i) 0); [lra |].
    apply Z.ltb_ge in Hb. rewrite Hb. eexists. reflexivity. }
  destruct Hparts as (parts & Hparts).
  assert (Hroi : exists v, roi i parts = inr v)
    by (unfold roi; rewrite Hp; eexists; reflexivity).
  destruct Hroi as (v & Hroi).
  exists parts. unfold main. rewrite Hparts. simpl.
  rewrite (cp_value i Hs'). simpl.
  rewrite (cpk_value i Hs'). simpl.
  rewrite (defect_rate_improved_value i Hi). simpl.
  rewrite Hp. simpl. rewrite Hroi. simpl.
  rewrite (cpk_improved_value i Hi). simpl.
  eexists. repeat split.
Qed.

Lemma main_returns (i : Inputs) (gauss : nat -> R) :
  0 < process_std i -> improved_std i <> 0 -> (0 <= batch_size i)%Z ->
  exists r : Report.t,
    main i gauss = inr r /\
    Report.cp r = (upper_spec i - lower_spec i) / (6 * process_std i) /\
    ((improvement_cost i <= 0)%Z -> Report.roi r = PosInf).
Proof.
  intros Hs Hi Hb.
  destruct (main_returns_locals i gauss Hs Hi Hb) as (parts & r & _ & Hr & H).
  destruct H as (_ & _ & _ & _ & _ & _ & _ & Hcp & H).
  destruct H as (_ & _ & _ & _ & _ & _ & _ & Hp & Hroi & _).
  exists r. split; [exact Hr |]. split.
  - rewrite cp_value in Hcp by lra. now injection Hcp as <-.
  - intros Hc. unfold roi in Hroi. rewrite Hp in Hroi. simpl in Hroi.
    injection Hroi as <-. unfold Py.gt0.
    destruct (0 <? improvement_cost i)%Z eqn:E; [| reflexivity].
    apply Z.ltb_lt in E. lia.
Qed.

Lemma main_returns_in_bounds (i : Inputs) (gauss : nat -> R) :
  widget_bounds i -> exists r : Report.t, main i gauss = inr r.
Proof.
  intros (_ & _ & Hs & _ & _ & Hb & _ & _ & Hi & _).
  destruct (main_returns i gauss) as (r & Hr & _); [lra | lra | lia |].
  now exists r.
Qed.

(** C1, as the code has it.  The script has no DomainError and validates
    nothing itself.  A standard deviation <= 0 and a negative batch size
    end the run with an error and no report: ValueError from the sampler,
    ZeroDivisionError from the first division by 6 * std.  An upper limit
    <= the lower limit and an investment <= 0 are not rejected: with
    positive standard deviations and batch size the run returns a report,
    with Cp <= 0 when upper <= lower and the infinite return on investment
    when the investment is <= 0. *)
Theorem main_error_behaviour (i : Inputs) (gauss : nat -> R) :
  (process_std i <= 0 -> rejected i gauss) /\
  ((batch_size i < 0)%Z -> rejected i gauss) /\
  (0 < process_std i -> 0 < improved_std i -> (0 < batch_size i)%Z ->
   exists r : Report.t,
     main i gauss = inr r /\
     (upper_spec i <= lower_spec i -> Report.cp r <= 0) /\
     ((improvement_cost i <= 0)%Z -> Report.roi r = PosInf)).
Proof.
  split; [apply main_rejects_nonpositive_std | split].
  - intros Hb. exists Py.ValueError. now apply main_raises_negative_batch.
  - intros Hs Hi Hb.
    destruct (main_returns i gauss) as (r & Hr & Hcp & Hroi); [lra | lra | lia |].
    exists r. split; [exact Hr | split; [| exact Hroi]].
    intros Hlu. rewrite Hcp. now apply cp_sign.
Qed.

Lemma main_error_behaviour_witness :
  exists r : Report.t,
    main equal_limits (fun _ => 0) = inr r /\ Report.cp r <= 0.
Proof.
  destruct (main_error_behaviour equal_limits (fun _ => 0)) as (_ & _ & H).
  destruct H as (r & Hr & Hcp & _).
  - simpl. lra.
  - simpl. lra.
  - simpl. lia.
  - exists r. split; [exact Hr |]. apply Hcp. simpl. lra.
Defined.

(** With both limits at 25, so that upper <= lower, and every other widget
    at its default, the run raises nothing: it returns a report, in which
    Cp is 0. *)
Lemma equal_limits_not_rejected :
  widget_bounds equal_limits /\
  upper_spec equal_limits <= lower_spec equal_limits /\
  (exists r : Report.t,
     main equal_limits (fun _ => 0) = inr r /\ Report.cp r = 0) /\
  ~ rejected equal_limits (fun _ => 0).
Proof.
  destruct (main_returns equal_limits (fun _ => 0)) as (r & Hr & Hcp & _);
    [simpl; lra | simpl; lra | simpl; lia |].
  split; [apply equal_limits_in_bounds |].
  split; [simpl; lra |]. split.
  - exists r. split; [exact Hr |]. rewrite Hcp. simpl. lra.
  - intros (e & He). rewrite Hr in He. discriminate He.
Qed.

(** * Further properties of [main] *)

(** ** Outcome of a run *)

Lemma main_raises_zero_improved_std (i : Inputs) (gauss : nat -> R) :
  0 < process_std i -> (0 <= batch_size i)%Z -> improved_std i = 0 ->
  main i gauss = inl Py.ZeroDivisionError.
Proof.
  intros Hs Hb Hi. assert (Hs' : process_std i <> 0) by lra.
  unfold main, manufactured_parts, Np.random_normal.
  destruct (Rlt_dec (process_std i) 0); [lra |].
  apply Z.ltb_ge in Hb. rewrite Hb. simpl.
  rewrite (cp_value i Hs'). simpl.
  rewrite (cpk_value i Hs'). simpl.
  unfold defect_rate_improved, z_lower_improved.
  rewrite truediv_zero by exact Hi. reflexivity.
Qed.

Lemma main_cases (i : Inputs) (gauss : nat -> R) :
  ((process_std i < 0 \/ (batch_size i < 0)%Z) /\
   main i gauss = inl Py.ValueError) \/
  (0 <= process_std i /\ (0 <= batch_size i)%Z /\
   (process_std i = 0 \/ improved_std i = 0) /\
   main i gauss = inl Py.ZeroDivisionError) \/
  (0 < process_std i /\ (0 <= batch_size i)%Z /\ improved_std i <> 0 /\
   exists r : Report.t, main i gauss = inr r).
Proof.
  destruct (Rlt_dec (process_std i) 0) as [Hneg | Hnn].
  { left. split; [now left | now apply main_raises_negative_std]. }
  destruct (Z_lt_le_dec (batch_size i) 0) as [Hb | Hb].
  { left. split; [now right | now apply main_raises_negative_batch]. }
  destruct (Req_dec_T (process_std i) 0) as [Hz | Hnz].
  { right; left. split; [lra |]. split; [lia |]. split; [now left |].
    now apply main_raises_zero_std. }
  destruct (Req_dec_T (improved_std i) 0) as [Hi | Hi].
  { right; left. split; [lra |]. split; [lia |]. split; [now right |].
    apply main_raises_zero_improved_std; [lra | lia | exact Hi]. }
  right; right. split; [lra |]. split; [lia |]. split; [exact Hi |].
  destruct (main_returns i gauss) as (r & Hr & _); [lra | exact Hi | lia |].
  now exists r.
Qed.

(** X1.  What a run does is decided by three inputs.  It raises ValueError
    exactly when the standard deviation or the batch size is negative;
    otherwise it raises ZeroDivisionError exactly when the standard
    deviation or the improved standard deviation is zero; otherwise it
    returns a report. *)
Theorem main_outcome (i : Inputs) (gauss : nat -> R) :
  (main i gauss = inl Py.ValueError <->
   process_std i < 0 \/ (batch_size i < 0)%Z) /\
  (main i gauss = inl Py.ZeroDivisionError <->
   0 <= process_std i /\ (0 <= batch_size i)%Z /\
   (process_std i = 0 \/ improved_std i = 0)) /\
  ((exists r : Report.t, main i gauss = inr r) <->
   0 < process_std i /\ (0 <= batch_size i)%Z /\ improved_std i <> 0).
Proof.
  destruct (main_cases i gauss)
    as [(Hc & Hm) | [(Hs & Hb & Hz & Hm) | (Hs & Hb & Hi & r & Hm)]];
    rewrite Hm.
  - split; [| split]; split; try tauto; try discriminate.
    + intros (H1 & H2 & _). destruct Hc; [lra | lia].
    + intros (r & Hr). discriminate Hr.
    + intros (H1 & H2 & _). destruct Hc; [lra | lia].
  - split; [| split]; split; try tauto; try discriminate.
    + intros [H | H]; [lra | lia].
    + intros (r & Hr). discriminate Hr.
    + intros (H1 & H2 & H3). destruct Hz; [lra | contradiction].
  - split; [| split]; split; try tauto; try discriminate.
    + intros [H | H]; [lra | lia].
    + intros (_ & _ & [H | H]); [lra | contradiction].
    + intros _. now exists r.
Qed.

(** ** Defect rate of a report *)

Lemma defect_rate_bounds (i : Inputs) (parts : list R) :
  Z.of_nat (length parts) = batch_size i -> (0 < batch_size i)%Z ->
  exists d : R, defect_rate i parts = Finite d /\ 0 <= d <= 100.
Proof.
  intros Hlen Hb. eexists. split; [apply defect_rate_finite; lia |].
  pose proof (defects_bounds i parts) as [Hlo Hhi]. rewrite Hlen in Hhi.
  apply IZR_le in Hlo, Hhi. apply IZR_lt in Hb.
  assert (Hinv : 0 < / IZR (batch_size i)) by now apply Rinv_0_lt_compat.
  assert (H1 : 0 <= IZR (defects i parts) / IZR (batch_size i))
    by (unfold Rdiv; nra).
  assert (H2 : IZR (defects i parts) / IZR (batch_size i) <= 1).
  { unfold Rdiv. apply Rmult_le_reg_r with (IZR (batch_size i)); [exact Hb |].
    rewrite Rmult_assoc, Rinv_l by lra. lra. }
  lra.
Qed.

(** X2.  For inputs within the ranges of the widgets a run raises nothing:
    it returns a report, whose defect rate is a finite percentage between
    0 and 100. *)
Theorem run_within_widget_bounds (i : Inputs) (gauss : nat -> R) :
  widget_bounds i ->
  exists (r : Report.t) (d : R),
    main i gauss = inr r /\
    Report.defect_rate r = Finite d /\ 0 <= d <= 100.
Proof.
  intros (_ & _ & Hs & _ & _ & Hb & _ & _ & Hi & _).
  destruct (main_returns_locals i gauss) as (parts & r & Hp & Hr & _ & _ & Hd & _);
    [lra | lra | lia |].
  apply random_normal_length in Hp.
  destruct (defect_rate_bounds i parts Hp) as (d & Hd' & Hrange); [lia |].
  exists r, d. split; [exact Hr |]. split; [congruence | exact Hrange].
Qed.

Lemma run_within_widget_bounds_witness :
  exists (r : Report.t) (d : R),
    main default_inputs (fun _ => 0) = inr r /\
    Report.defect_rate r = Finite d /\ 0 <= d <= 100.
Proof.
  apply (run_within_widget_bounds default_inputs (fun _ => 0)).
  unfold widget_bounds; simpl. repeat split; lra || lia.
Defined.

(** X3.  An empty batch is not rejected: with a batch size of 0 and
    positive standard deviations the run returns a report with no parts, no
    defects, no good parts and a defect rate that is not a number. *)
Theorem empty_batch_report (i : Inputs) (gauss : nat -> R) :
  batch_size i = 0%Z -> 0 < process_std i -> improved_std i <> 0 ->
  exists r : Report.t,
    main i gauss = inr r /\
    Report.manufactured_parts r = [] /\
    Report.defects r = 0%Z /\
    Report.good_parts r = 0%Z /\
    Report.defect_rate r = NaN.
Proof.
  intros Hb Hs Hi.
  destruct (main_returns_locals i gauss)
    as (parts & r & Hp & Hr & Hparts & Hdef & Hrate & Hgood & _);
    [exact Hs | exact Hi | lia |].
  assert (Hnil : parts = []).
  { apply random_normal_length in Hp. rewrite Hb in Hp.
    destruct parts; [reflexivity | discriminate Hp]. }
  rewrite Hnil in Hparts, Hdef, Hgood, Hrate.
  exists r. split; [exact Hr |].
  rewrite Hparts, Hdef, Hgood, Hrate.
  unfold good_parts, defect_rate, defects. rewrite Hb. simpl.
  repeat split.
Qed.

Lemma empty_batch_report_witness :
  exists r : Report.t,
    main (with_batch_size default_inputs 0) (fun _ => 0) = inr r /\
    Report.defect_rate r = NaN.
Proof.
  destruct (empty_batch_report (with_batch_size default_inputs 0) (fun _ => 0))
    as (r & Hr & _ & _ & _ & Hn).
  - reflexivity.
  - simpl. lra.
  - simpl. lra.
  - exists r. split; [exact Hr | exact Hn].
Defined.

(** ** Counting defects *)

Lemma sum_map_app {A : Type} (p : A -> bool) (l1 l2 : list A) :
  Np.sum (map p (l1 ++ l2)) = (Np.sum (map p l1) + Np.sum (map p l2))%Z.
Proof.
  induction l1 as [| a l1 IH]; simpl; [reflexivity |]. rewrite IH. lia.
Qed.

Lemma sum_map_permutation {A : Type} (p : A -> bool) (l1 l2 : list A) :
  Permutation l1 l2 -> Np.sum (map p l1) = Np.sum (map p l2).
Proof.
  induction 1; simpl; lia.
Qed.

Lemma sum_map_le {A : Type} (p q : A -> bool) (l : list A) :
  (forall a, In a l -> p a = true -> q a = true) ->
  (Np.sum (map p l) <= Np.sum (map q l))%Z.
Proof.
  induction l as [| a l IH]; intros H; simpl; [lia |].
  assert (IH' := IH (fun b Hb => H b (or_intror Hb))).
  destruct (p a) eqn:E.
  - rewrite (H a (or_introl eq_refl) E). lia.
  - destruct (q a); lia.
Qed.

Lemma sum_map_all {A : Type} (p : A -> bool) (l : list A) :
  (forall a, In a l -> p a = true) ->
  Np.sum (map p l) = Z.of_nat (length l).
Proof.
  induction l as [| a l IH]; intros H; [reflexivity |].
  simpl Np.sum. rewrite (H a (or_introl eq_refl)).
  rewrite IH by (intros b Hb; apply H; now right).
  simpl length. lia.
Qed.

Lemma sum_map_zero_iff {A : Type} (p : A -> bool) (l : list A) :
  Np.sum (map p l) = 0%Z <-> forall a, In a l -> p a = false.
Proof.
  induction l as [| a l IH]; simpl.
  - split; [intros _ a [] | reflexivity].
  - pose proof (sum_bounds (map p l)) as [Hlo _].
    destruct (p a) eqn:E; split.
    + lia.
    + intros H. specialize (H a (or_introl eq_refl)). congruence.
    + intros H b [<- | Hb]; [exact E | apply IH; [lia | exact Hb]].
    + intros H. apply IH. intros b Hb. apply H. now right.
Qed.

(** X4.  The defect count is additive: the defects of two batches put
    together are the defects of the one plus the defects of the other, and
    the order of the parts in a batch does not matter. *)
Theorem defects_additive (i : Inputs) (parts1 parts2 : list R) :
  defects i (parts1 ++ parts2) = (defects i parts1 + defects i parts2)%Z /\
  (Permutation parts1 parts2 -> defects i parts1 = defects i parts2).
Proof.
  rewrite !defects_unfold. split.
  - apply sum_map_app.
  - apply sum_map_permutation.
Qed.

(** X5.  A batch has no defect exactly when every part lies between the
    limits, the limits included. *)
Theorem no_defects_iff (i : Inputs) (parts : list R) :
  defects i parts = 0%Z <->
  forall v : R, In v parts -> lower_spec i <= v <= upper_spec i.
Proof.
  rewrite defects_unfold, sum_map_zero_iff. split; intros H v Hv.
  - specialize (H v Hv). apply orb_false_iff in H. destruct H as [H1 H2].
    unfold Np.ltb in H1. unfold Np.gtb in H2.
    destruct (Rlt_dec v (lower_spec i)); [discriminate |].
    destruct (Rgt_dec v (upper_spec i)); [discriminate |]. lra.
  - specialize (H v Hv). apply orb_false_iff.
    split; compare_reals; reflexivity.
Qed.

(** X6.  When the upper limit is below the lower limit every part is
    counted as a defect: for a batch of batch_size parts no part is good,
    the revenue is zero and the profit is minus the manufacturing cost. *)
Theorem inverted_limits_all_defective (i : Inputs) (parts : list R) :
  upper_spec i < lower_spec i ->
  Z.of_nat (length parts) = batch_size i ->
  defects i parts = batch_size i /\
  good_parts i parts = 0%Z /\
  total_revenue i parts = 0 /\
  profit i parts = - total_manufacturing_cost i.
Proof.
  intros Hinv Hlen.
  assert (Hd : defects i parts = batch_size i).
  { rewrite defects_unfold, <- Hlen. apply sum_map_all.
    intros v _. apply out_of_spec_mask. unfold out_of_spec.
    destruct (Rlt_dec v (lower_spec i)); [now left | right; lra]. }
  assert (Hg : good_parts i parts = 0%Z) by (unfold good_parts; lia).
  assert (Hr : total_revenue i parts = 0)
    by (unfold total_revenue; rewrite Hg; simpl; lra).
  repeat split; try assumption.
  unfold profit. rewrite Hr. lra.
Qed.

Lemma inverted_limits_all_defective_witness :
  defects inverted_limits (repeat 25%R 1000) = 1000%Z /\
  profit inverted_limits (repeat 25%R 1000)
  = - total_manufacturing_cost inverted_limits.
Proof.
  destruct (inverted_limits_all_defective inverted_limits (repeat 25%R 1000))
    as (Hd & _ & _ & Hp).
  - simpl. lra.
  - rewrite repeat_length. reflexivity.
  - split; [exact Hd | exact Hp].
Defined.

(** X7.  Widening the limits never adds a defect: with a lower limit moved
    down and an upper limit moved up, the defect count of a batch does not
    grow. *)
Theorem defects_wider_limits (i : Inputs) (lower upper : R) (parts : list R) :
  lower <= lower_spec i -> upper_spec i <= upper ->
  (defects (with_limits i lower upper) parts <= defects i parts)%Z.
Proof.
  intros Hl Hu. rewrite !defects_unfold. apply sum_map_le.
  intros v _ Hv. apply out_of_spec_mask. apply out_of_spec_mask in Hv.
  unfold out_of_spec in *. simpl in Hv. destruct Hv; [left | right]; lra.
Qed.

Lemma defects_wider_limits_witness :
  (defects (with_limits default_inputs 24 26)
           [2494 / 100; 25; 2506 / 100]%R
   <= defects default_inputs [2494 / 100; 25; 2506 / 100]%R)%Z.
Proof.
  apply (defects_wider_limits default_inputs 24 26); simpl; lra.
Defined.

(** ** Profit *)

Lemma profit_decomposition (i : Inputs) (parts : list R) :
  profit i parts =
  IZR (batch_size i) * (revenue_per_unit i - cost_per_unit i)
  - IZR (defects i parts) * revenue_per_unit i.
Proof.
  unfold profit, total_revenue, total_manufacturing_cost, good_parts.
  rewrite minus_IZR. ring.
Qed.

(** X8.  Every defective part costs its revenue: the profit is
    batch_size * (revenue - cost) - defects * revenue.  For a batch of
    batch_size parts sold at a revenue that is not negative it lies between
    minus the manufacturing cost, when every part is defective, and
    batch_size * (revenue - cost), when none is. *)
Theorem profit_bounds (i : Inputs) (parts : list R) :
  Z.of_nat (length parts) = batch_size i ->
  0 <= revenue_per_unit i ->
  profit i parts =
  IZR (batch_size i) * (revenue_per_unit i - cost_per_unit i)
  - IZR (defects i parts) * revenue_per_unit i /\
  - total_manufacturing_cost i <= profit i parts
  <= IZR (batch_size i) * (revenue_per_unit i - cost_per_unit i).
Proof.
  intros Hlen Hrev. split; [apply profit_decomposition |].
  rewrite profit_decomposition. unfold total_manufacturing_cost.
  pose proof (defects_bounds i parts) as [Hlo Hhi]. rewrite Hlen in Hhi.
  apply IZR_le in Hlo, Hhi. split; nra.
Qed.

Lemma profit_bounds_witness :
  - total_manufacturing_cost default_inputs
  <= profit default_inputs (repeat 25%R 1000)
  <= IZR 1000 * (15 - 5).
Proof.
  destruct (profit_bounds default_inputs (repeat 25%R 1000)) as (_ & H).
  - rewrite repeat_length. reflexivity.
  - simpl. lra.
  - exact H.
Defined.

(** X9.  The page reports a loss exactly when the revenue lost on the
    defective parts exceeds the margin of the batch,
    defects * revenue > batch_size * (revenue - cost), and a profit
    otherwise. *)
Theorem profit_message_iff (i : Inputs) (parts : list R) :
  (profit_message i parts = st_error "The process is operating at a loss" <->
   IZR (batch_size i) * (revenue_per_unit i - cost_per_unit i)
   < IZR (defects i parts) * revenue_per_unit i) /\
  (profit_message i parts = st_success "The process is profitable" <->
   IZR (defects i parts) * revenue_per_unit i
   <= IZR (batch_size i) * (revenue_per_unit i - cost_per_unit i)).
Proof.
  unfold profit_message. rewrite profit_decomposition.
  match goal with |- context [Rlt_dec ?a ?b] => destruct (Rlt_dec a b) end;
    split; split; intros H; try reflexivity; try discriminate H; lra.
Qed.

(** ** Capability *)

Lemma div_lt_iff (n d t : R) : 0 < d -> (n / d < t <-> n < t * d).
Proof.
  intros Hd. unfold Rdiv. assert (Hi : 0 < / d) by now apply Rinv_0_lt_compat.
  split; intros H.
  - apply Rmult_lt_reg_r with (/ d); [exact Hi |].
    rewrite (Rmult_assoc t), Rinv_r by lra. lra.
  - apply Rmult_lt_reg_r with d; [exact Hd |].
    rewrite Rmult_assoc, Rinv_l by lra. lra.
Qed.

Lemma Rmin_lt_iff (a b t : R) : Rmin a b < t <-> a < t \/ b < t.
Proof.
  unfold Rmin. destruct (Rle_dec a b); split; intros H; try lra;
    destruct H; lra.
Qed.

Lemma cpk_lt_iff (i : Inputs) (t : R) :
  0 < process_std i ->
  exists k : R,
    cpk i = inr k /\
    (k < t <->
     upper_spec i - process_mean i < t * (3 * process_std i) \/
     process_mean i - lower_spec i < t * (3 * process_std i)).
Proof.
  intros Hs. eexists. split; [apply cpk_value; lra |].
  rewrite Rmin_lt_iff, !div_lt_iff by lra. reflexivity.
Qed.

(** X10.  With a positive standard deviation Cp is the mean of Cpu and
    Cpl, Cpk never exceeds Cp, and the two are equal exactly when the
    process mean is midway between the limits. *)
Theorem cpk_at_most_cp (i : Inputs) :
  0 < process_std i ->
  exists c u l k : R,
    cp i = inr c /\ cpu i = inr u /\ cpl i = inr l /\ cpk i = inr k /\
    c = (u + l) / 2 /\
    k <= c /\
    (k = c <-> process_mean i = (lower_spec i + upper_spec i) / 2).
Proof.
  intros Hs. assert (Hs' : process_std i <> 0) by lra.
  do 4 eexists.
  split; [now apply cp_value |]. split; [now apply cpu_value |].
  split; [now apply cpl_value |]. split; [now apply cpk_value |].
  assert (Hc : (upper_spec i - lower_spec i) / (6 * process_std i) =
               ((upper_spec i - process_mean i) / (3 * process_std i)
                + (process_mean i - lower_spec i) / (3 * process_std i)) / 2)
    by (field; lra).
  split; [exact Hc |]. rewrite Hc.
  set (u := (upper_spec i - process_mean i) / (3 * process_std i)).
  set (l := (process_mean i - lower_spec i) / (3 * process_std i)).
  assert (Hul : u = l <-> process_mean i = (lower_spec i + upper_spec i) / 2).
  { unfold u, l, Rdiv.
    assert (Hi : 0 < / (3 * process_std i)) by (apply Rinv_0_lt_compat; lra).
    split; intros H.
    - apply Rmult_eq_reg_r in H; lra.
    - rewrite H. f_equal. lra. }
  unfold Rmin.
  destruct (Rle_dec u l); (split; [lra | rewrite <- Hul; split; lra]).
Qed.

Lemma cpk_at_most_cp_witness :
  exists c k : R,
    cp default_inputs = inr c /\ cpk default_inputs = inr k /\ k <= c.
Proof.
  destruct (cpk_at_most_cp default_inputs) as (c & u & l & k & Hc & _ & _ & Hk & _ & Hle & _).
  - simpl. lra.
  - exists c, k. repeat split; assumption.
Defined.

(** X11.  With a positive standard deviation the verdict on capability
    depends on the distances from the mean to the limits: "not capable"
    exactly when a limit is closer than 3 standard deviations, "capable"
    exactly when both are at least 3.99 standard deviations away, and
    "marginally capable" in between. *)
Theorem capability_message_thresholds (i : Inputs) :
  0 < process_std i ->
  (capability_message i = inr (st_error "Process is not capable (Cpk < 1.0)") <->
   upper_spec i - process_mean i < 3 * process_std i \/
   process_mean i - lower_spec i < 3 * process_std i) /\
  (capability_message i
   = inr (st_warning "Process is marginally capable (1.0 ≤ Cpk < 1.33)") <->
   3 * process_std i <= upper_spec i - process_mean i /\
   3 * process_std i <= process_mean i - lower_spec i /\
   (upper_spec i - process_mean i < 399 / 100 * process_std i \/
    process_mean i - lower_spec i < 399 / 100 * process_std i)) /\
  (capability_message i = inr (st_success "Process is capable (Cpk ≥ 1.33)") <->
   399 / 100 * process_std i <= upper_spec i - process_mean i /\
   399 / 100 * process_std i <= process_mean i - lower_spec i).
Proof.
  intros Hs.
  destruct (cpk_lt_iff i 1 Hs) as (k & Hk & H1).
  destruct (cpk_lt_iff i (133 / 100) Hs) as (k' & Hk' & H2).
  rewrite Hk in Hk'. injection Hk' as <-.
  unfold capability_message. rewrite Hk. simpl.
  destruct (Rlt_dec k 1) as [Hlt1 | Hge1];
    [| destruct (Rlt_dec k (133 / 100)) as [Hlt2 | Hge2]].
  - assert (Hd := proj1 H1 Hlt1).
    split; [| split]; split; intros H; try discriminate H; try reflexivity;
      try exact Hd; destruct Hd; lra.
  - assert (Hd := proj1 H2 Hlt2).
    assert (Hn : ~ (upper_spec i - process_mean i < 1 * (3 * process_std i) \/
                    process_mean i - lower_spec i < 1 * (3 * process_std i)))
      by (intros H; apply H1 in H; lra).
    split; [| split]; split; intros H; try discriminate H; try reflexivity.
    + exfalso. apply Hn. destruct H; [left | right]; lra.
    + split; [| split].
      * destruct (Rle_dec (3 * process_std i) (upper_spec i - process_mean i));
          [assumption | exfalso; apply Hn; left; lra].
      * destruct (Rle_dec (3 * process_std i) (process_mean i - lower_spec i));
          [assumption | exfalso; apply Hn; right; lra].
      * destruct Hd; [left | right]; lra.
    + destruct Hd; lra.
  - assert (Hn : ~ (upper_spec i - process_mean i < 133 / 100 * (3 * process_std i) \/
                    process_mean i - lower_spec i < 133 / 100 * (3 * process_std i)))
      by (intros H; apply H2 in H; lra).
    split; [| split]; split; intros H; try discriminate H; try reflexivity.
    + exfalso. apply Hn. destruct H; [left | right]; lra.
    + exfalso. apply Hn. destruct H as (_ & _ & [H | H]); [left | right]; lra.
    + split.
      * destruct (Rle_dec (399 / 100 * process_std i) (upper_spec i - process_mean i));
          [assumption | exfalso; apply Hn; left; lra].
      * destruct (Rle_dec (399 / 100 * process_std i) (process_mean i - lower_spec i));
          [assumption | exfalso; apply Hn; right; lra].
Qed.

Lemma capability_message_thresholds_witness :
  capability_message default_inputs
  = inr (st_error "Process is not capable (Cpk < 1.0)").
Proof.
  destruct (capability_message_thresholds default_inputs) as (H & _).
  - simpl. lra.
  - apply H. left. simpl. lra.
Defined.

(** X12.  Limits that leave no room, upper <= lower, are never reported as
    capable: with a positive standard deviation Cpk is at most 0 and the
    verdict is "not capable". *)
Theorem no_room_not_capable (i : Inputs) :
  0 < process_std i ->
  upper_spec i <= lower_spec i ->
  exists k : R,
    cpk i = inr k /\ k <= 0 /\
    capability_message i = inr (st_error "Process is not capable (Cpk < 1.0)").
Proof.
  intros Hs Hlu.
  destruct (cpk_lt_iff i 0 Hs) as (k & Hk & H0).
  assert (Hk0 : k <= 0).
  { destruct (Rle_dec k 0) as [H | H]; [exact H | exfalso].
    assert (Hn : ~ (upper_spec i - process_mean i < 0 * (3 * process_std i) \/
                    process_mean i - lower_spec i < 0 * (3 * process_std i)))
      by (intros H'; apply H0 in H'; lra).
    destruct (Rlt_dec (upper_spec i - process_mean i) 0) as [Hu | Hu];
      [apply Hn; left; lra |].
    destruct (Rlt_dec (process_mean i - lower_spec i) 0) as [Hl | Hl];
      [apply Hn; right; lra |].
    assert (Heq : upper_spec i - process_mean i = 0 /\
                  process_mean i - lower_spec i = 0) by lra.
    destruct Heq as [E1 E2].
    rewrite cpk_value in Hk by lra. injection Hk as Hk.
    rewrite E1, E2 in Hk. unfold Rdiv in Hk. rewrite !Rmult_0_l in Hk.
    unfold Rmin in Hk. destruct (Rle_dec 0 0); lra. }
  exists k. split; [exact Hk |]. split; [exact Hk0 |].
  unfold capability_message. rewrite Hk. simpl.
  destruct (Rlt_dec k 1); [reflexivity | lra].
Qed.

Lemma no_room_not_capable_witness :
  capability_message equal_limits
  = inr (st_error "Process is not capable (Cpk < 1.0)").
Proof.
  destruct (no_room_not_capable equal_limits) as (k & _ & _ & H).
  - simpl. lra.
  - simpl. lra.
  - exact H.
Defined.

(** ** The points of the density curve *)

Lemma map_seq_sorted (rel : R -> R -> Prop) (f : nat -> R) :
  (forall a b : nat, (a < b)%nat -> rel (f a) (f b)) ->
  forall n s : nat, StronglySorted rel (map f (seq s n)).
Proof.
  intros Hf. induction n as [| n IH]; intros s; simpl; constructor.
  - apply IH.
  - apply Forall_forall. intros v Hv.
    apply in_map_iff in Hv. destruct Hv as (b & <- & Hb).
    apply in_seq in Hb. apply Hf. lia.
Qed.

Lemma x_as_map (i : Inputs) :
  x i = map (fun k => INR k * (8 * process_std i / 999)
                      + (process_mean i - 4 * process_std i))
            (seq 0 1000).
Proof.
  unfold x, Np.linspace. apply map_ext. intros k.
  replace (INR (1000 - 1)) with 999
    by (rewrite INR_IZR_INZ; reflexivity).
  f_equal. f_equal. lra.
Qed.

Lemma x_bounds (i : Inputs) (v : R) :
  0 <= process_std i -> In v (x i) ->
  process_mean i - 4 * process_std i <= v <= process_mean i + 4 * process_std i.
Proof.
  intros Hs Hv. rewrite x_as_map in Hv. apply in_map_iff in Hv.
  destruct Hv as (k & <- & Hk). apply in_seq in Hk.
  assert (H0 : 0 <= INR k) by apply pos_INR.
  assert (H1 : INR k <= 999).
  { replace 999 with (INR 999) by (rewrite INR_IZR_INZ; reflexivity).
    apply le_INR. lia. }
  split; nra.
Qed.

Lemma x_ends (i : Inputs) :
  hd 0 (x i) = process_mean i - 4 * process_std i /\
  last (x i) 0 = process_mean i + 4 * process_std i.
Proof.
  rewrite x_as_map. split.
  - change (seq 0 1000) with (0%nat :: seq 1 999). simpl hd.
    change (INR 0) with 0. lra.
  - change 1000%nat with (S 999). rewrite seq_S, map_app. cbn [map]. rewrite last_last.
    replace (INR (0 + 999)) with 999 by (rewrite INR_IZR_INZ; reflexivity).
    lra.
Qed.

Lemma x_increasing (i : Inputs) :
  0 < process_std i -> StronglySorted Rlt (x i).
Proof.
  intros Hs. rewrite x_as_map. apply map_seq_sorted.
  intros a b Hab. apply lt_INR in Hab. nra.
Qed.

Lemma x_sorted (i : Inputs) :
  0 <= process_std i -> StronglySorted Rle (x i).
Proof.
  intros Hs. rewrite x_as_map. apply map_seq_sorted.
  intros a b Hab. apply lt_INR in Hab. nra.
Qed.

(** X13.  With a positive standard deviation the curve has 1000 points that
    run from mean - 4*std, the first, to mean + 4*std, the last, in
    strictly increasing order; every point lies within these four standard
    deviations of the mean. *)
Theorem curve_points (i : Inputs) :
  0 < process_std i ->
  length (x i) = 1000%nat /\
  hd 0 (x i) = process_mean i - 4 * process_std i /\
  last (x i) 0 = process_mean i + 4 * process_std i /\
  StronglySorted Rlt (x i) /\
  forall v : R, In v (x i) ->
    process_mean i - 4 * process_std i <= v <= process_mean i + 4 * process_std i.
Proof.
  intros Hs. split; [apply x_length |].
  split; [apply x_ends |]. split; [apply x_ends |].
  split; [now apply x_increasing |].
  intros v Hv. apply x_bounds; [lra | exact Hv].
Qed.

Lemma curve_points_witness :
  hd 0 (x default_inputs) = 25003 / 1000 - 4 * (18 / 1000) /\
  last (x default_inputs) 0 = 25003 / 1000 + 4 * (18 / 1000) /\
  StronglySorted Rlt (x default_inputs).
Proof.
  destruct (curve_points default_inputs) as (_ & Hh & Hl & Hs & _).
  - simpl. lra.
  - split; [exact Hh | split; [exact Hl | exact Hs]].
Defined.

(** ** The shaded regions as pieces of the curve *)

Lemma take_map_filter {A : Type} (p : A -> bool) (l : list A) :
  Np.take l (map p l) = filter p l.
Proof.
  induction l as [| a l IH]; simpl; [reflexivity |].
  destruct (p a); now rewrite IH.
Qed.

Lemma take_map_map {A B : Type} (f : A -> B) (p : A -> bool) (l : list A) :
  Np.take (map f l) (map p l) = map f (Np.take l (map p l)).
Proof.
  induction l as [| a l IH]; simpl; [reflexivity |].
  destruct (p a); simpl; now rewrite IH.
Qed.

Lemma filter_none {A : Type} (p : A -> bool) (l : list A) :
  (forall a, In a l -> p a = false) -> filter p l = [].
Proof.
  induction l as [| a l IH]; intros H; simpl; [reflexivity |].
  rewrite (H a (or_introl eq_refl)). apply IH. intros b Hb. apply H. now right.
Qed.

Lemma filter_all {A : Type} (p : A -> bool) (l : list A) :
  (forall a, In a l -> p a = true) -> filter p l = l.
Proof.
  induction l as [| a l IH]; intros H; simpl; [reflexivity |].
  rewrite (H a (or_introl eq_refl)). f_equal. apply IH.
  intros b Hb. apply H. now right.
Qed.

Lemma sorted_three_way (lo hi : R) (l : list R) :
  StronglySorted Rle l -> lo <= hi ->
  filter (fun v => Np.ltb v lo) l
  ++ filter (fun v => Np.geb v lo && Np.leb v hi) l
  ++ filter (fun v => Np.gtb v hi) l = l.
Proof.
  intros Hs Hlh. induction Hs as [| a l Hs IH Ha]; [reflexivity |].
  rewrite Forall_forall in Ha. simpl.
  destruct (Rlt_dec a lo) as [H1 | H1];
    [| destruct (Rgt_dec a hi) as [H2 | H2]].
  - replace (Np.ltb a lo) with true by (compare_reals; reflexivity).
    replace (Np.geb a lo && Np.leb a hi) with false by (compare_reals; reflexivity).
    replace (Np.gtb a hi) with false by (compare_reals; reflexivity).
    simpl. now rewrite IH.
  - replace (Np.ltb a lo) with false by (compare_reals; reflexivity).
    replace (Np.geb a lo && Np.leb a hi) with false by (compare_reals; reflexivity).
    replace (Np.gtb a hi) with true by (compare_reals; reflexivity).
    rewrite (filter_none (fun v => Np.ltb v lo))
      by (intros b Hb; specialize (Ha b Hb); compare_reals; reflexivity).
    rewrite (filter_none (fun v => Np.geb v lo && Np.leb v hi))
      by (intros b Hb; specialize (Ha b Hb); compare_reals; reflexivity).
    rewrite (filter_all (fun v => Np.gtb v hi))
      by (intros b Hb; specialize (Ha b Hb); compare_reals; reflexivity).
    reflexivity.
  - replace (Np.ltb a lo) with false by (compare_reals; reflexivity).
    replace (Np.geb a lo && Np.leb a hi) with true by (compare_reals; reflexivity).
    replace (Np.gtb a hi) with false by (compare_reals; reflexivity).
    rewrite (filter_none (fun v => Np.ltb v lo)) in *
      by (intros b Hb; specialize (Ha b Hb); compare_reals; reflexivity).
    simpl. f_equal. exact IH.
Qed.

Lemma shaded_x_as_filter (i : Inputs) :
  lower_out_x i = filter (fun v => Np.ltb v (lower_spec i)) (x i) /\
  in_spec_x i
  = filter (fun v => Np.geb v (lower_spec i) && Np.leb v (upper_spec i)) (x i) /\
  upper_out_x i = filter (fun v => Np.gtb v (upper_spec i)) (x i).
Proof.
  unfold lower_out_x, in_spec_x, upper_out_x, Np.lt, Np.gt.
  rewrite in_spec_mask_unfold, !take_map_filter. repeat split.
Qed.

Lemma shaded_pdf_as_map (i : Inputs) :
  lower_out_pdf i
  = map (fun v => Norm.pdf v (process_mean i) (process_std i)) (lower_out_x i) /\
  in_spec_pdf i
  = map (fun v => Norm.pdf v (process_mean i) (process_std i)) (in_spec_x i) /\
  upper_out_pdf i
  = map (fun v => Norm.pdf v (process_mean i) (process_std i)) (upper_out_x i).
Proof.
  unfold lower_out_pdf, in_spec_pdf, upper_out_pdf,
    lower_out_x, in_spec_x, upper_out_x, pdf, Np.lt, Np.gt.
  rewrite in_spec_mask_unfold, !take_map_map. repeat split.
Qed.

(** X14.  Each shaded region pairs its points with their own densities: the
    density values selected for a region are the densities of the points
    selected for it, in the same order, so both lists of a region have the
    same length. *)
Theorem shaded_regions_aligned (i : Inputs) :
  lower_out_pdf i
  = map (fun v => Norm.pdf v (process_mean i) (process_std i)) (lower_out_x i) /\
  in_spec_pdf i
  = map (fun v => Norm.pdf v (process_mean i) (process_std i)) (in_spec_x i) /\
  upper_out_pdf i
  = map (fun v => Norm.pdf v (process_mean i) (process_std i)) (upper_out_x i) /\
  length (lower_out_pdf i) = length (lower_out_x i) /\
  length (in_spec_pdf i) = length (in_spec_x i) /\
  length (upper_out_pdf i) = length (upper_out_x i).
Proof.
  destruct (shaded_pdf_as_map i) as (Hl & Hm & Hu).
  repeat split; try assumption.
  - rewrite Hl. apply length_map.
  - rewrite Hm. apply length_map.
  - rewrite Hu. apply length_map.
Qed.

(** X15.  With a standard deviation that is not negative and ordered
    limits the three regions are consecutive pieces of the curve: the
    points below, within and above specification, put end to end, are the
    points of the curve, and likewise for the densities. *)
Theorem shaded_regions_rebuild_curve (i : Inputs) :
  0 <= process_std i ->
  lower_spec i <= upper_spec i ->
  lower_out_x i ++ in_spec_x i ++ upper_out_x i = x i /\
  lower_out_pdf i ++ in_spec_pdf i ++ upper_out_pdf i = pdf i.
Proof.
  intros Hs Hlu.
  assert (Hx : lower_out_x i ++ in_spec_x i ++ upper_out_x i = x i).
  { destruct (shaded_x_as_filter i) as (-> & -> & ->).
    apply sorted_three_way; [now apply x_sorted | exact Hlu]. }
  split; [exact Hx |].
  destruct (shaded_pdf_as_map i) as (-> & -> & ->).
  rewrite <- !map_app. unfold pdf. now rewrite Hx.
Qed.

Lemma shaded_regions_rebuild_curve_witness :
  lower_out_x default_inputs ++ in_spec_x default_inputs
  ++ upper_out_x default_inputs = x default_inputs.
Proof.
  apply (shaded_regions_rebuild_curve default_inputs); simpl; lra.
Defined.

(** X16.  When both limits lie at least four standard deviations from the
    mean the whole curve is within specification and both regions outside
    it are empty. *)
Theorem curve_within_wide_limits (i : Inputs) :
  0 <= process_std i ->
  lower_spec i <= process_mean i - 4 * process_std i ->
  process_mean i + 4 * process_std i <= upper_spec i ->
  in_spec_x i = x i /\ lower_out_x i = [] /\ upper_out_x i = [].
Proof.
  intros Hs Hl Hu. destruct (shaded_x_as_filter i) as (-> & -> & ->).
  split; [| split].
  - apply filter_all. intros v Hv. pose proof (x_bounds i v Hs Hv).
    compare_reals; reflexivity.
  - apply filter_none. intros v Hv. pose proof (x_bounds i v Hs Hv).
    compare_reals; reflexivity.
  - apply filter_none. intros v Hv. pose proof (x_bounds i v Hs Hv).
    compare_reals; reflexivity.
Qed.

Lemma curve_within_wide_limits_witness :
  in_spec_x (with_limits default_inputs 24 26)
  = x (with_limits default_inputs 24 26).
Proof.
  apply (curve_within_wide_limits (with_limits default_inputs 24 26));
    simpl; lra.
Defined.

(** ** The improvement scenario *)

Lemma div_le_div_pos (a b s : R) : 0 < s -> a <= b -> a / s <= b / s.
Proof.
  intros Hs Hab. unfold Rdiv. apply Rmult_le_compat_r; [| exact Hab].
  left. now apply Rinv_0_lt_compat.
Qed.

(** X17.  With a positive improved standard deviation the analytic defect
    rate is at most 100 percent when the limits are ordered, and the
    expected number of good parts is then not negative; when the upper
    limit is not above the lower one the rate is at least 100 percent and
    no good part is expected. *)
Theorem analytic_rate_range (i : Inputs) :
  0 < improved_std i ->
  (0 <= batch_size i)%Z ->
  exists d g : R,
    defect_rate_improved i = inr d /\
    good_parts_improved i = inr g /\
    (lower_spec i <= upper_spec i -> d <= 100 /\ 0 <= g) /\
    (upper_spec i <= lower_spec i -> 100 <= d /\ g <= 0).
Proof.
  intros Hs Hb. assert (Hs' : improved_std i <> 0) by lra.
  do 2 eexists.
  split; [now apply defect_rate_improved_value |].
  split; [now apply good_parts_improved_value |].
  apply IZR_le in Hb. unfold analytic_defect_rate. split; intros Hlu.
  - assert (H : Norm.cdf ((lower_spec i - improved_mean i) / improved_std i)
                <= Norm.cdf ((upper_spec i - improved_mean i) / improved_std i))
      by (apply cdf_monotone, div_le_div_pos; lra).
    split; [lra | nra].
  - assert (H : Norm.cdf ((upper_spec i - improved_mean i) / improved_std i)
                <= Norm.cdf ((lower_spec i - improved_mean i) / improved_std i))
      by (apply cdf_monotone, div_le_div_pos; lra).
    split; [lra | nra].
Qed.

Lemma analytic_rate_range_witness :
  exists d g : R,
    defect_rate_improved default_inputs = inr d /\
    good_parts_improved default_inputs = inr g /\
    d <= 100 /\ 0 <= g.
Proof.
  destruct (analytic_rate_range default_inputs)
    as (d & g & Hd & Hg & Hord & _).
  - simpl. lra.
  - simpl. lia.
  - exists d, g. split; [exact Hd |]. split; [exact Hg |].
    apply Hord. simpl. lra.
Defined.

(** X18.  Widening the limits never raises the analytic defect rate: with
    a positive improved standard deviation, a lower limit moved down and an
    upper limit moved up give a rate that is not larger. *)
Theorem analytic_rate_wider_limits (i : Inputs) (lower upper : R) :
  0 < improved_std i ->
  lower <= lower_spec i -> upper_spec i <= upper ->
  exists d d' : R,
    defect_rate_improved i = inr d /\
    defect_rate_improved (with_limits i lower upper) = inr d' /\
    d' <= d.
Proof.
  intros Hs Hl Hu. assert (Hs' : improved_std i <> 0) by lra.
  do 2 eexists.
  split; [now apply defect_rate_improved_value |].
  split; [apply defect_rate_improved_value; exact Hs' |].
  simpl. change (improved_mean (with_limits i lower upper)) with (improved_mean i).
  unfold analytic_defect_rate.
  assert (H1 : Norm.cdf ((lower - improved_mean i) / improved_std i)
               <= Norm.cdf ((lower_spec i - improved_mean i) / improved_std i))
    by (apply cdf_monotone, div_le_div_pos; lra).
  assert (H2 : Norm.cdf ((upper_spec i - improved_mean i) / improved_std i)
               <= Norm.cdf ((upper - improved_mean i) / improved_std i))
    by (apply cdf_monotone, div_le_div_pos; lra).
  lra.
Qed.

Lemma analytic_rate_wider_limits_witness :
  exists d d' : R,
    defect_rate_improved default_inputs = inr d /\
    defect_rate_improved (with_limits default_inputs 24 26) = inr d' /\
    d' <= d.
Proof.
  apply (analytic_rate_wider_limits default_inputs 24 26); simpl; lra.
Defined.

(** X19.  For a positive investment the manufacturing cost cancels out of
    the return on investment, which is
    ((improved revenue - current revenue) / investment - 1) * 100; it is
    positive exactly when the improved profit exceeds the current profit. *)
Theorem roi_from_revenues (i : Inputs) (parts : list R) :
  improved_std i <> 0 ->
  (0 < improvement_cost i)%Z ->
  exists rev p v : R,
    total_revenue_improved i = inr rev /\
    profit_improved i = inr p /\
    roi i parts = inr (Finite v) /\
    v = ((rev - total_revenue i parts) / IZR (improvement_cost i) - 1) * 100 /\
    (0 < v <-> profit i parts < p).
Proof.
  intros Hs Hc. destruct (profit_improved_value i Hs) as (rev & Hrev & Hp).
  do 3 eexists. split; [exact Hrev |]. split; [exact Hp |].
  split.
  { unfold roi, Py.gt0. rewrite Hp. simpl.
    apply Z.ltb_lt in Hc. rewrite Hc. reflexivity. }
  apply IZR_lt in Hc.
  assert (Hi : 0 < / IZR (improvement_cost i)) by now apply Rinv_0_lt_compat.
  split.
  - unfold profit. field. lra.
  - set (n := rev - total_manufacturing_cost i - IZR (improvement_cost i)
              - profit i parts).
    unfold Rdiv. split; intros H.
    + assert (0 < n * / IZR (improvement_cost i)) by lra.
      assert (0 < n).
      { apply Rmult_lt_reg_r with (/ IZR (improvement_cost i)); [exact Hi |]. lra. }
      unfold n in *. lra.
    + assert (0 < n) by (unfold n; lra).
      assert (0 < n * / IZR (improvement_cost i))
        by now apply Rmult_lt_0_compat.
      lra.
Qed.

Lemma roi_from_revenues_witness :
  exists rev v : R,
    total_revenue_improved default_inputs = inr rev /\
    roi default_inputs [25] = inr (Finite v) /\
    v = ((rev - total_revenue default_inputs [25]) / IZR 5000 - 1) * 100.
Proof.
  destruct (roi_from_revenues default_inputs [25])
    as (rev & p & v & Hrev & _ & Hroi & Hv & _).
  - simpl. lra.
  - simpl. lia.
  - exists rev, v. split; [exact Hrev | split; [exact Hroi | exact Hv]].
Defined.

Lemma Rmin_div_pos (a b k : R) : 0 < k -> Rmin (a / k) (b / k) = Rmin a b / k.
Proof.
  intros Hk. assert (Hi : 0 < / k) by now apply Rinv_0_lt_compat.
  unfold Rmin, Rdiv.
  destruct (Rle_dec (a * / k) (b * / k)) as [H | H], (Rle_dec a b) as [H' | H'];
    try reflexivity.
  - assert (b * / k < a * / k) by (apply Rmult_lt_compat_r; lra). lra.
  - assert (a * / k <= b * / k) by (apply Rmult_le_compat_r; lra). lra.
Qed.

(** X20.  Without centering, Cpk is inversely proportional to the standard
    deviation: an improved standard deviation of k times the current one,
    k > 0, gives an improved Cpk of the current Cpk divided by k. *)
Theorem cpk_improved_scales (i : Inputs) (k : R) :
  0 < process_std i -> 0 < k ->
  improved_std i = k * process_std i ->
  centered_mean i = false ->
  exists c : R, cpk i = inr c /\ cpk_improved i = inr (c / k).
Proof.
  intros Hs Hk Hi Hc. eexists. split; [apply cpk_value; lra |].
  rewrite cpk_improved_value by (rewrite Hi; nra).
  rewrite py_min_Rmin, <- Rmin_div_pos by exact Hk.
  unfold improved_mean. rewrite Hc, Hi. do 2 f_equal; field; lra.
Qed.

(** The defaults, whose improved standard deviation is 0.8 times the
    current one. *)
Lemma cpk_improved_scales_witness :
  exists c : R,
    cpk default_inputs = inr c /\
    cpk_improved default_inputs = inr (c / (8 / 10)).
Proof.
  apply (cpk_improved_scales default_inputs (8 / 10)); simpl;
    lra || reflexivity.
Defined.

(** X21.  With a positive improved standard deviation the improved Cpk
    never exceeds (upper - lower) / (6 * improved_std), and centering the
    process on a target midway between the limits reaches this value. *)
Theorem cpk_improved_at_most (i : Inputs) :
  0 < improved_std i ->
  exists k : R,
    cpk_improved i = inr k /\
    k <= (upper_spec i - lower_spec i) / (6 * improved_std i) /\
    (centered_mean i = true ->
     target_dimension i = (lower_spec i + upper_spec i) / 2 ->
     k = (upper_spec i - lower_spec i) / (6 * improved_std i)).
Proof.
  intros Hs. eexists. split; [apply cpk_improved_value; lra |].
  rewrite py_min_Rmin.
  assert (Hc : (upper_spec i - lower_spec i) / (6 * improved_std i) =
               ((upper_spec i - improved_mean i) / (3 * improved_std i)
                + (improved_mean i - lower_spec i) / (3 * improved_std i)) / 2)
    by (field; lra).
  split.
  - rewrite Hc. unfold Rmin.
    match goal with |- context [Rle_dec ?a ?b] => destruct (Rle_dec a b) end; lra.
  - intros Hcen Ht. unfold improved_mean. rewrite Hcen, Ht.
    replace ((upper_spec i - (lower_spec i + upper_spec i) / 2)
             / (3 * improved_std i))
      with ((upper_spec i - lower_spec i) / (6 * improved_std i))
      by (field; lra).
    replace (((lower_spec i + upper_spec i) / 2 - lower_spec i)
             / (3 * improved_std i))
      with ((upper_spec i - lower_spec i) / (6 * improved_std i))
      by (field; lra).
    apply Rmin_left. lra.
Qed.

Lemma cpk_improved_at_most_witness :
  exists k : R,
    cpk_improved default_inputs = inr k /\
    k <= (2505 / 100 - 2495 / 100) / (6 * (144 / 10000)).
Proof.
  destruct (cpk_improved_at_most default_inputs) as (k & Hk & Hle & _).
  - simpl. lra.
  - exists k. split; [exact Hk | exact Hle].
Defined.

(** ** The densities of the curve *)

(** X22.  With a positive standard deviation every density of the curve is
    positive and at most 1 / (std * sqrt(2 * pi)), the density at the
    mean. *)
Theorem curve_densities_range (i : Inputs) :
  0 < process_std i ->
  Norm.pdf (process_mean i) (process_mean i) (process_std i)
  = 1 / (process_std i * sqrt (2 * PI)) /\
  forall v : R, In v (pdf i) ->
    0 < v <= 1 / (process_std i * sqrt (2 * PI)).
Proof.
  intros Hs.
  assert (Hq : 0 < sqrt (2 * PI))
    by (apply sqrt_lt_R0; pose proof PI_RGT_0; lra).
  split.
  - unfold Norm.pdf, Norm.std_pdf.
    replace (- ((process_mean i - process_mean i) / process_std i
                * ((process_mean i - process_mean i) / process_std i)) / 2)
      with 0 by (field; lra).
    rewrite exp_0. field. lra.
  - intros v Hv. unfold pdf in Hv. apply in_map_iff in Hv.
    destruct Hv as (p & <- & _). unfold Norm.pdf.
    set (t := (p - process_mean i) / process_std i).
    pose proof (std_pdf_pos t) as Hpos.
    assert (Hle : Norm.std_pdf t <= exp (- 0) / sqrt (2 * PI)).
    { apply std_pdf_le. unfold Rdiv. pose proof (Rle_0_sqr t) as H.
      unfold Rsqr in H. lra. }
    rewrite Ropp_0, exp_0 in Hle.
    assert (Hi : 0 < / process_std i) by now apply Rinv_0_lt_compat.
    split.
    + unfold Rdiv. now apply Rmult_lt_0_compat.
    + replace (1 / (process_std i * sqrt (2 * PI)))
        with (1 / sqrt (2 * PI) / process_std i) by (field; lra).
      apply div_le_div_pos; assumption.
Qed.

Lemma curve_densities_range_witness :
  0 < Norm.pdf (process_mean default_inputs - 4 * process_std default_inputs)
               (process_mean default_inputs) (process_std default_inputs)
  <= 1 / (process_std default_inputs * sqrt (2 * PI)).
Proof.
  destruct (curve_densities_range default_inputs) as (_ & H).
  - simpl. lra.
  - apply H. unfold pdf.
    apply (in_map (fun v => Norm.pdf v (process_mean default_inputs)
                                     (process_std default_inputs))).
    apply x_first.
Defined.
